(** * Attribute handling of the abstract interpreter (pytype/attribute.py)

    A shallow embedding of [AbstractAttributeHandler]: the read entry point
    [get_attribute], the write entry point [set_attribute] and their helpers,
    over an explicit store of abstract values and of binding-graph variables.

    Abstract values and variables are mutable Python objects that are shared
    and compared by identity, so both live in a store and are referred to by
    their index.  The collaborators that are not part of attribute.py (the
    virtual machine, the converter, the methods of the abstract values) are
    the fields of the record [Env]; the handler is defined for any such
    environment. *)

From stdpp Require Import gmap strings list.

(** ** Identities *)

Abbreviation node := nat (only parsing).
Abbreviation obj_id := nat (only parsing).
Abbreviation var_id := nat (only parsing).

(** A binding is identified by the variable that owns it and its position in
    that variable's [bindings] list (bindings are appended, never removed). *)
Definition bref : Type := var_id * nat.

(** ** The binding graph's variables *)

Record Origin := { where_ : node; source_set : list bref }.

(** Modelled from the spec: cfg.Binding, which is not part of attribute.py;
    a Binding pairs a value with the program points at which it originates
    and is immutable once created. *)
Record Binding := { data : obj_id; origins : list Origin }.

(** ** Abstract values *)

(** The classes that attribute.py tests with [isinstance]. *)
Inductive PyClass :=
| Function | ParameterizedClass | Class | Overlay | Module | SimpleValue
| Union | SuperInstance | Super | BoundFunction | TypeParameterInstance
| Empty | StaticMethod | ClassMethod | Unsolvable | Unknown
| InterpreterClass | PyTDClass | PyTDFunction | SignedFunction
| Property | PropertyInstance | LazyMembers | Instance.

#[global] Instance PyClass_eq_dec : EqDecision PyClass.
Proof. solve_decision. Defined.

(** The attributes of an abstract value that attribute.py reads or writes.
    [py_classes] lists the classes of [PyClass] the value is an instance of;
    [lazy_names] are the keys of the lazy member source of a LazyMembers
    value. *)
Record Value := {
  class_name : string;
  py_classes : list PyClass;
  name : string;
  full_name : string;
  cls : obj_id;
  mro : list obj_id;
  slots : option (list string);
  members : gmap string var_id;
  lazy_names : list string;
  maybe_missing_members : bool;
  official_name : option string;
  base_cls : obj_id;
  options : list obj_id;
  underlying : obj_id;
  method : obj_id;
  instance : obj_id;
  param : obj_id;
  constraints : list obj_id;
  bound : option obj_id;
  formal : bool;
  formal_type_parameters : list (string * obj_id);
  super_cls : obj_id;
  super_obj : option obj_id
}.

Definition with_members (m : gmap string var_id) (v : Value) : Value :=
  {| class_name := class_name v; py_classes := py_classes v; name := name v;
     full_name := full_name v; cls := cls v; mro := mro v; slots := slots v;
     members := m; lazy_names := lazy_names v;
     maybe_missing_members := maybe_missing_members v;
     official_name := official_name v; base_cls := base_cls v;
     options := options v; underlying := underlying v; method := method v;
     instance := instance v; param := param v; constraints := constraints v;
     bound := bound v; formal := formal v;
     formal_type_parameters := formal_type_parameters v;
     super_cls := super_cls v;
     super_obj := super_obj v |}.

Definition with_official_name (n : option string) (v : Value) : Value :=
  {| class_name := class_name v; py_classes := py_classes v; name := name v;
     full_name := full_name v; cls := cls v; mro := mro v; slots := slots v;
     members := members v; lazy_names := lazy_names v;
     maybe_missing_members := maybe_missing_members v;
     official_name := n; base_cls := base_cls v;
     options := options v; underlying := underlying v; method := method v;
     instance := instance v; param := param v; constraints := constraints v;
     bound := bound v; formal := formal v;
     formal_type_parameters := formal_type_parameters v;
     super_cls := super_cls v;
     super_obj := super_obj v |}.

(** A value with no attributes set; dereferencing an identity that the store
    does not hold yields it. *)
Definition blank : Value :=
  {| class_name := ""; py_classes := []; name := ""; full_name := "";
     cls := 0; mro := []; slots := None; members := ∅; lazy_names := [];
     maybe_missing_members := false; official_name := None; base_cls := 0;
     options := []; underlying := 0; method := 0; instance := 0; param := 0;
     constraints := []; bound := None; formal := false;
     formal_type_parameters := []; super_cls := 0;
     super_obj := None |}.

Definition isinstance (v : Value) (c : PyClass) : bool :=
  bool_decide (c ∈ py_classes v).

Definition isinstance_any (v : Value) (cs : list PyClass) : bool :=
  existsb (isinstance v) cs.

(** abstract.AMBIGUOUS_OR_EMPTY *)
Definition AMBIGUOUS_OR_EMPTY : list PyClass := [Unknown; Unsolvable; Empty].

(** ** The analysis state *)

Record State := {
  objs : list Value;              (* the abstract values, by identity *)
  vars : list (list Binding);     (* program.NewVariable: the bindings of each variable *)
  cfg_edges : list (node * node); (* the binding graph's nodes and edges *)
  errorlog : list (obj_id * string); (* vm.errorlog.not_writable entries *)
  f_globals : option obj_id       (* vm.frame.f_globals; None when vm.frame is None *)
}.

Definition with_objs (o : list Value) (st : State) : State :=
  {| objs := o; vars := vars st; cfg_edges := cfg_edges st;
     errorlog := errorlog st; f_globals := f_globals st |}.

Definition with_vars (v : list (list Binding)) (st : State) : State :=
  {| objs := objs st; vars := v; cfg_edges := cfg_edges st;
     errorlog := errorlog st; f_globals := f_globals st |}.

Definition with_errorlog (e : list (obj_id * string)) (st : State) : State :=
  {| objs := objs st; vars := vars st; cfg_edges := cfg_edges st;
     errorlog := e; f_globals := f_globals st |}.

Definition value_of (st : State) (o : obj_id) : Value :=
  default blank (objs st !! o).

Definition members_of (st : State) (o : obj_id) : gmap string var_id :=
  members (value_of st o).

Definition bindings (st : State) (v : var_id) : list Binding :=
  default [] (vars st !! v).

(** [var.data] *)
Definition var_data (st : State) (v : var_id) : list obj_id :=
  data <$> bindings st v.

(** The bindings of a variable, as references. *)
Definition binding_refs (st : State) (v : var_id) : list bref :=
  (λ i, (v, i)) <$> seq 0 (length (bindings st v)).

Definition binding_at (st : State) (b : bref) : option Binding :=
  bindings st b.1 !! b.2.

(** [b.data] *)
Definition bdata (st : State) (b : bref) : obj_id :=
  from_option data 0 (binding_at st b).

(** ** Results: values, exceptions, exhausted fuel *)

Inductive Exn :=
| AssertionError
| NotImplementedError (what : string).

Inductive Res (A : Type) :=
| Done (st : State) (a : A)
| Raise (st : State) (e : Exn)
| Timeout.
Arguments Done {A} st a.
Arguments Raise {A} st e.
Arguments Timeout {A}.

Definition M (A : Type) : Type := State → Res A.

Definition ret {A} (a : A) : M A := λ st, Done st a.

Definition bind {A B} (c : M A) (k : A → M B) : M B :=
  λ st, match c st with
        | Done st' a => k a st'
        | Raise st' e => Raise st' e
        | Timeout => Timeout
        end.

Notation "'let*' p := c 'in' k" := (bind c (λ p, k))
  (at level 10, p pattern, c at level 100, k at level 200).

Definition raise {A} (e : Exn) : M A := λ st, Raise st e.
Definition timeout {A} : M A := λ _, Timeout.
Definition gets {A} (f : State → A) : M A := λ st, Done st (f st).
Definition modify (f : State → State) : M unit := λ st, Done (f st) tt.
Definition assert (b : bool) : M unit :=
  if b then ret tt else raise AssertionError.

(** [for x in xs: body x], threading an accumulator. *)
Fixpoint foldM {A B} (f : B → A → M B) (b : B) (xs : list A) : M B :=
  match xs with
  | [] => ret b
  | x :: xs => let* b' := f b x in foldM f b' xs
  end.

(** ** Operations on variables *)

Definition set_value (o : obj_id) (f : Value → Value) : M unit :=
  modify (λ st, with_objs (<[o := f (value_of st o)]> (objs st)) st).

(** [obj.members[name] = var] *)
Definition set_member_slot (o : obj_id) (nm : string) (v : var_id) : M unit :=
  set_value o (λ x, with_members (<[nm := v]> (members x)) x).

(** [program.NewVariable()] *)
Definition NewVariable : M var_id :=
  λ st, Done (with_vars (vars st ++ [[]]) st) (length (vars st)).

Definition append_binding (v : var_id) (b : Binding) (st : State) : State :=
  with_vars (<[v := bindings st v ++ [b]]> (vars st)) st.

(** Modelled from the spec: cfg.Variable.AddBinding, which is not part of
    attribute.py; a variable is mutated in place, bindings are appended and
    never removed, and the new binding originates at [whr]. *)
Definition AddBinding (v : var_id) (d : obj_id) (srcs : list bref)
    (whr : node) : M bref :=
  λ st, Done (append_binding v
                {| data := d;
                   origins := [{| where_ := whr; source_set := srcs |}] |} st)
             (v, length (bindings st v)).

(** Modelled from the spec: cfg.Variable.PasteBinding; the pasted binding
    keeps its value, originates at [whr] when one is given and keeps the
    origins of the binding it copies otherwise. *)
Definition PasteBinding (v : var_id) (b : bref) (whr : option node) : M unit :=
  λ st, Done (append_binding v
                {| data := bdata st b;
                   origins :=
                     match whr with
                     | Some n => [{| where_ := n; source_set := [b] |}]
                     | None => from_option origins [] (binding_at st b)
                     end |} st) tt.

(** Modelled from the spec: cfg.Variable.PasteVariable; the existing variable
    gets the bindings of [src] pasted in. *)
Definition PasteVariable (v src : var_id) (whr : option node) : M unit :=
  let* bs := gets (λ st, binding_refs st src) in
  foldM (λ _ b, PasteBinding v b whr) tt bs.

(** Modelled from the spec: cfg.Variable.AssignToNewVariable *)
Definition AssignToNewVariable (src : var_id) (whr : option node) : M var_id :=
  let* v := NewVariable in
  let* _ := PasteVariable v src whr in
  ret v.

(** Modelled from the spec: cfg.Binding.AssignToNewVariable *)
Definition Binding_AssignToNewVariable (b : bref) (whr : option node) : M var_id :=
  let* v := NewVariable in
  let* _ := PasteBinding v b whr in
  ret v.

(** [value.to_variable(node)]: a fresh variable that binds the value at
    [node], with no sources. *)
Definition to_variable (o : obj_id) (whr : node) : M var_id :=
  let* v := NewVariable in
  let* _ := AddBinding v o [] whr in
  ret v.

(** [value.to_binding(node)] *)
Definition to_binding (o : obj_id) (whr : node) : M bref :=
  let* v := to_variable o whr in
  ret (v, 0).

(** ** The collaborators of the attribute handler

    Everything attribute.py calls that is defined elsewhere: the virtual
    machine ([vm]), its converter ([vm.convert]), the annotation utilities,
    [function.call_function], and the methods of the abstract values.
    Operations that may allocate, analyse called code or advance the current
    node are state transformers ([Ext]). *)

Definition Subst : Type := list (string * var_id).

(** A collaborator always returns: it yields a result and the state it
    leaves behind. *)
Definition Ext (A : Type) : Type := State → A * State.

Definition ext {A} (f : Ext A) : M A :=
  λ st, let (a, st') := f st in Done st' a.

Record Env := {
  (* vm and vm.convert *)
  root_node : node;
  module_name : option string;               (* vm.options.module_name *)
  object_type : obj_id;
  type_type : obj_id;
  super_type : obj_id;
  module_type : obj_id;
  unsolvable : obj_id;
  empty : obj_id;
  none : obj_id;
  merge_classes : list obj_id → Ext obj_id;
  constant_to_var : string → node → Ext var_id;
  join_cfg_nodes : list node → Ext node;
  join_variables : node → list var_id → Ext var_id;
  (* the binding graph: is the second node reachable from the first *)
  reachable : State → node → node → bool;
  (* function.call_function(vm, node, func, Args(posargs)) *)
  call_function : node → var_id → list var_id → Ext (node * var_id);
  (* abstract_utils *)
  equivalent_to : State → bref → obj_id → bool;
  get_annotations_dict : State → gmap string var_id → option obj_id;
  get_type_parameter_substitutions : obj_id → list obj_id → Ext Subst;
  (* vm.annotation_utils *)
  get_type_parameters : obj_id → Ext (list obj_id);
  sub_one_annotation : node → obj_id → list Subst → Ext obj_id;
  init_annotation : node → string → obj_id → Ext (node * var_id);
  (* methods of abstract values; the receiver comes first *)
  contains : State → obj_id → string → bool;  (* name in value *)
  is_nonempty : State → obj_id → bool;        (* truth value of an annotations dict *)
  get_special_attribute : obj_id → node → string → option bref → Ext (option var_id);
  get_module : obj_id → string → Ext obj_id;
  get_submodule : obj_id → node → string → Ext (option var_id);
  get_instance_type_parameter : obj_id → string → Ext var_id;
  instantiate : obj_id → node → Ext var_id;
  property_get : obj_id → var_id → bool → Ext obj_id;
  property_call : obj_id → node → Ext (node * var_id);
  get_type : obj_id → node → string → Ext (option obj_id);
  convert_member : obj_id → string → option Subst → Ext var_id;
  convert_as_instance_attribute : obj_id → string → obj_id → Ext (option var_id);
  set_class : obj_id → node → var_id → Ext node;
  set_function_defaults : obj_id → node → var_id → Ext unit;
  official_name_after : Value → string → option string
}.

Section Handler.

Variable E : Env.

(** Modelled from the spec: cfg.Binding.IsVisible; a Binding is visible at a
    node if that node is reachable from (or equal to) one of the binding's
    origin nodes, per the binding graph's own reachability rule. *)
Definition visible_at (st : State) (n : node) (b : Binding) : bool :=
  existsb (λ o, reachable E st (where_ o) n) (origins b).

Definition IsVisible (st : State) (b : bref) (n : node) : bool :=
  from_option (visible_at st n) false (binding_at st b).

(** Modelled from the spec: cfg.Variable.Bindings(node, strict); the bindings
    of the variable that are visible at the node. *)
Definition Bindings (st : State) (v : var_id) (n : node) : list bref :=
  filter (λ b, IsVisible st b n = true) (binding_refs st v).

(** [vm.new_unsolvable(node)] *)
Definition new_unsolvable (n : node) : M var_id :=
  to_variable (unsolvable E) n.

(** [v.update_official_name(name)] *)
Definition update_official_name (o : obj_id) (nm : string) : M unit :=
  set_value o (λ v, with_official_name (official_name_after E v nm) v).

(** Modelled from the spec: mixin.LazyMembers.load_lazy_attribute; a member
    is materialised from the lazy member source on first touch. *)
Definition load_lazy_attribute (o : obj_id) (nm : string)
    (subst : option Subst) : M unit :=
  let* v := gets (λ st, value_of st o) in
  if bool_decide (nm ∉ dom (members v)) && bool_decide (nm ∈ lazy_names v)
  then let* var := ext (convert_member E o nm subst) in set_member_slot o nm var
  else ret tt.

(** ** Writing *)

Fixpoint check_writable_mro (st : State) (nm : string) (bases : list obj_id) : bool :=
  match bases with
  | [] => false
  | b :: rest =>
      let baseclass := value_of st b in
      if String.eqb (full_name baseclass) "builtins.object"
      then check_writable_mro st nm rest
      else if isinstance baseclass SimpleValue
                && (contains E st b "__setattr__" || contains E st b nm)
      then true
      else if match slots baseclass with
              | None => true
              | Some s => bool_decide (nm ∈ s)
              end
      then true
      else check_writable_mro st nm rest
  end.

Definition _check_writable (obj : obj_id) (nm : string) : M bool :=
  λ st,
    let bases := mro (value_of st (cls (value_of st obj))) in
    match bases with
    | [] => Done st true
    | _ =>
        if check_writable_mro st nm bases then Done st true
        else Done (with_errorlog (errorlog st ++ [(obj, nm)]) st) false
    end.

Fixpoint maybe_load_bases (n : node) (obj : obj_id) (nm : string)
    (bases : list obj_id) : M unit :=
  match bases with
  | [] => ret tt
  | base :: rest =>
      let* b := gets (λ st, value_of st base) in
      let base := if isinstance b ParameterizedClass then base_cls b else base in
      let* b := gets (λ st, value_of st base) in
      if isinstance b PyTDClass then
        let* var := ext (convert_as_instance_attribute E base nm obj) in
        match var with
        | Some var =>
            let* m := gets (λ st, members_of st obj) in
            match m !! nm with
            | Some old => PasteVariable old var (Some n)
            | None => set_member_slot obj nm var
            end
        | None => maybe_load_bases n obj nm rest
        end
      else maybe_load_bases n obj nm rest
  end.

Definition _maybe_load_as_instance_attribute (n : node) (obj : obj_id)
    (nm : string) : M unit :=
  let* o := gets (λ st, value_of st obj) in
  let* _ := assert (isinstance o SimpleValue) in
  let* c := gets (λ st, value_of st (cls o)) in
  if negb (isinstance c Class) then ret tt
  else maybe_load_bases n obj nm (mro c).

Definition _set_member (n : node) (obj : obj_id) (nm : string)
    (var : var_id) : M node :=
  let* o := gets (λ st, value_of st obj) in
  let* _ := if isinstance o LazyMembers then load_lazy_attribute obj nm None
            else ret tt in
  if String.eqb nm "__class__" then ext (set_class E obj n var)
  else if isinstance_any o [PyTDFunction; SignedFunction]
          && String.eqb nm "__defaults__"
  then let* _ := ext (set_function_defaults E obj n var) in ret n
  else
    let* m := gets (λ st, members_of st obj) in
    let* _ := if isinstance o Instance && bool_decide (nm ∉ dom m)
              then _maybe_load_as_instance_attribute (root_node E) obj nm
              else ret tt in
    let* m := gets (λ st, members_of st obj) in
    match m !! nm with
    | Some variable =>
        let* _ := PasteVariable variable var (Some n) in ret n
    | None =>
        let* variable := AssignToNewVariable var (Some n) in
        let* _ := set_member_slot obj nm variable in
        ret n
    end.

(** The branch of [set_attribute]'s if/elif chain that a value takes: the
    first test that succeeds. *)
Inductive WriteBranch :=
| WEmpty | WModule | WMethodWrapper | WSimpleValue | WBoundFunction
| WUnsolvable | WUnknown | WTypeParameterInstance | WUnion | WOther.

Definition write_branch (o : Value) : WriteBranch :=
  if isinstance o Empty then WEmpty
  else if isinstance o Module then WModule
  else if isinstance_any o [StaticMethod; ClassMethod] then WMethodWrapper
  else if isinstance o SimpleValue then WSimpleValue
  else if isinstance o BoundFunction then WBoundFunction
  else if isinstance o Unsolvable then WUnsolvable
  else if isinstance o Unknown then WUnknown
  else if isinstance o TypeParameterInstance then WTypeParameterInstance
  else if isinstance o Union then WUnion
  else WOther.

(** The values written to the frame's globals are told their name. *)
Definition update_official_names (obj : obj_id) (nm : string)
    (value : var_id) : M unit :=
  let* g := gets f_globals in
  if bool_decide (g = Some obj)
  then let* d := gets (λ st, var_data st value) in
       foldM (λ _ v, update_official_name v nm) tt d
  else ret tt.

(** What [set_attribute] does once the target passed the writability check. *)
Definition set_attribute_dispatch
    (set_attribute : node → obj_id → string → var_id → M node)
    (n : node) (obj : obj_id) (nm : string) (value : var_id) : M node :=
  let* _ := update_official_names obj nm value in
  let* o := gets (λ st, value_of st obj) in
  match write_branch o with
  | WEmpty => ret n
  | WModule => ret n
  | WMethodWrapper => set_attribute n (method o) nm value
  | WSimpleValue => _set_member n obj nm value
  | WBoundFunction => set_attribute n (underlying o) nm value
  | WUnsolvable => ret n
  | WUnknown =>
      match members o !! nm with
      | Some old => let* _ := PasteVariable old value (Some n) in ret n
      | None =>
          let* v := AssignToNewVariable value (Some n) in
          let* _ := set_member_slot obj nm v in
          ret n
      end
  | WTypeParameterInstance =>
      let* pv := ext (get_instance_type_parameter E (instance o) (name o)) in
      let* d := gets (λ st, var_data st pv) in
      let* nodes := foldM (λ acc v, let* n' := set_attribute n v nm value in
                                    ret (acc ++ [n'])) [] d in
      match nodes with
      | [] => ret n
      | _ => ext (join_cfg_nodes E nodes)
      end
  | WUnion => foldM (λ n' option, set_attribute n' option nm value) n (options o)
  | WOther => raise (NotImplementedError (class_name o))
  end.

Fixpoint set_attribute (fuel : nat) (n : node) (obj : obj_id) (nm : string)
    (value : var_id) : M node :=
  match fuel with
  | 0 => timeout
  | S fuel =>
      let* writable := _check_writable obj nm in
      if negb writable then ret n
      else set_attribute_dispatch (set_attribute fuel) n obj nm value
  end.

(** ** Reading *)

(** The signature of [get_attribute]: node, object, name and the optional
    binding of the self reference, to a node and the attribute (None when it
    does not exist). *)
Definition GetAttr : Type :=
  node → obj_id → string → option bref → M (node * option var_id).

(** [_filter_var]'s loop.  The list of bindings it walks is extended while it
    is walked (the visible values of a type parameter instance are appended
    to it), so the walk is bounded by fuel. *)
Fixpoint filter_var_loop (fuel : nat) (n : node) (ret_var : var_id)
    (work : list bref) : M unit :=
  match work with
  | [] => ret tt
  | binding :: rest =>
      match fuel with
      | 0 => timeout
      | S fuel =>
          let* val := gets (λ st, bdata st binding) in
          let* v := gets (λ st, value_of st val) in
          if isinstance v TypeParameterInstance then
            let* var := ext (get_instance_type_parameter E (instance v) (name v)) in
            let* var_bindings := gets (λ st, Bindings st var n) in
            match var_bindings with
            | _ :: _ => filter_var_loop fuel n ret_var (rest ++ var_bindings)
            | [] =>
                let* p := gets (λ st, value_of st (param v)) in
                let* _ :=
                  if negb (bool_decide (constraints p = [])) || bool_decide (is_Some (bound p))
                  then let* i := ext (instantiate E (param v) n) in
                       PasteVariable ret_var i None
                  else let* _ := AddBinding ret_var (empty E) [] n in ret tt in
                filter_var_loop fuel n ret_var rest
            end
          else
            let* _ := AddBinding ret_var val [binding] n in
            filter_var_loop fuel n ret_var rest
      end
  end.

Definition _filter_var (fuel : nat) (n : node) (var : var_id) : M (option var_id) :=
  let* bs := gets (λ st, Bindings st var n) in
  match bs with
  | [] => ret None
  | _ =>
      let* all := gets (λ st, binding_refs st var) in
      let* any_tpi := gets (λ st,
        existsb (λ b, isinstance (value_of st (bdata st b)) TypeParameterInstance) bs) in
      if (length bs =? length all) && negb any_tpi then ret (Some var)
      else
        let* ret_var := NewVariable in
        let* _ := filter_var_loop fuel n ret_var bs in
        let* out := gets (λ st, bindings st ret_var) in
        match out with
        | [] => ret None
        | _ => ret (Some ret_var)
        end
  end.

Definition _get_member (n : node) (obj : obj_id) (nm : string)
    (valself : option bref) : M (node * option var_id) :=
  let* o := gets (λ st, value_of st obj) in
  let* _ :=
    if isinstance o LazyMembers then
      let* vd := gets (λ st, (λ b, value_of st (bdata st b)) <$> valself) in
      let* subst :=
        match vd with
        | Some d =>
            if isinstance d ParameterizedClass then
              let* s := foldM (λ acc kv,
                          let* i := ext (instantiate E kv.2 n) in
                          ret (acc ++ [(full_name d +:+ "." +:+ kv.1, i)]))
                        [] (formal_type_parameters d) in
              ret (Some s)
            else ret None
        | None => ret None
        end in
      load_lazy_attribute obj nm subst
    else ret tt in
  let* _ :=
    if isinstance o Instance then
      let* reload := gets (λ st,
        match members_of st obj !! nm with
        | None => true
        | Some v => bool_decide (bindings st v = [])
        end) in
      if reload then _maybe_load_as_instance_attribute n obj nm else ret tt
    else ret tt in
  let* found := gets (λ st,
    match members_of st obj !! nm with
    | Some v => match Bindings st v n with [] => None | _ => Some v end
    | None => None
    end) in
  ret (n, found).

Fixpoint _get_attribute_flat (get_attribute : GetAttr) (fuel : nat) (n : node)
    (c : obj_id) (nm : string) (valself : option bref) : M (node * option var_id) :=
  match fuel with
  | 0 => timeout
  | S fuel =>
      let* v := gets (λ st, value_of st c) in
      if isinstance v ParameterizedClass then
        _get_attribute_flat get_attribute fuel n (base_cls v) nm valself
      else if isinstance v Class then
        let* r := _get_member n c nm valself in
        match r.2 with
        | Some attr =>
            let* attr := _filter_var fuel r.1 attr in ret (r.1, attr)
        | None => ret (r.1, None)
        end
      else if isinstance_any v [Unknown; Unsolvable] then
        get_attribute n c nm None
      else ret (n, None)
  end.

(** The body of [_lookup_from_mro]'s loop over the bindings of the variable
    found on [base]: binds the value to [valself] and adds it to [ret_var];
    returns the (possibly advanced) node. *)
Definition lookup_bind_value (c base : obj_id) (valself : option bref)
    (ret_var : var_id) (n : node) (varval : bref) : M node :=
  let* value := gets (λ st, bdata st varval) in
  match valself with
  | Some vs =>
      let* v := gets (λ st, value_of st value) in
      let* b := gets (λ st, value_of st base) in
      let* value :=
        if negb (isinstance v PyTDFunction) || negb (isinstance b InterpreterClass)
        then let* callself := Binding_AssignToNewVariable vs (Some n) in
             let* is_class := gets (λ st, equivalent_to E st vs c) in
             ext (property_get E value callself is_class)
        else ret value in
      let* v := gets (λ st, value_of st value) in
      if isinstance v Property then
        let* r := ext (property_call E value n) in
        let* finals := gets (λ st, var_data st r.2) in
        let* _ := foldM (λ _ final,
                    let* _ := AddBinding ret_var final [varval; vs] r.1 in ret tt)
                  tt finals in
        ret r.1
      else
        let* _ := AddBinding ret_var value [varval; vs] n in ret n
  | None =>
      let* _ := AddBinding ret_var value [varval] n in ret n
  end.

(** What [_lookup_from_mro] finds on one class of the MRO: the special
    attribute if the class has one, its flat attribute otherwise; the result
    is the (possibly advanced) node and the bindings of the variable found,
    none when there is no variable. *)
Definition lookup_in_base (get_attribute : GetAttr) (fuel : nat) (n : node)
    (base : obj_id) (nm : string) (valself : option bref)
    : M (node * list bref) :=
  let* special := ext (get_special_attribute E base n nm valself) in
  let* r := match special with
            | Some var => ret (n, Some var)
            | None => _get_attribute_flat get_attribute fuel n base nm valself
            end in
  let* found := match r.2 with
                | Some var => gets (λ st, binding_refs st var)
                | None => ret []
                end in
  ret (r.1, found).

(** [_lookup_from_mro]'s loop over [cls.mro]. *)
Fixpoint lookup_mro_loop (get_attribute : GetAttr) (fuel : nat) (c : obj_id)
    (nm : string) (valself : option bref) (skip : list obj_id)
    (ret_var : var_id) (n : node) (bases : list obj_id) : M unit :=
  match bases with
  | [] => ret tt
  | base :: rest =>
      if bool_decide (base ∈ skip)
      then lookup_mro_loop get_attribute fuel c nm valself skip ret_var n rest
      else
        let* r := lookup_in_base get_attribute fuel n base nm valself in
        match r.2 with
        | [] => lookup_mro_loop get_attribute fuel c nm valself skip ret_var r.1 rest
        | found =>
            let* _ := foldM (lookup_bind_value c base valself ret_var) r.1 found in
            ret tt
        end
  end.

Definition _lookup_from_mro (get_attribute : GetAttr) (fuel : nat) (n : node)
    (c : obj_id) (nm : string) (valself : option bref) (skip : list obj_id)
    : M var_id :=
  let* v := gets (λ st, value_of st c) in
  if isinstance_any v [Unknown; Unsolvable] then new_unsolvable n
  else
    let* ret_var := NewVariable in
    let* _ := lookup_mro_loop get_attribute fuel c nm valself skip ret_var n (mro v) in
    ret ret_var.

Definition _computable (nm : string) : bool :=
  negb (String.prefix "__" nm && String.prefix "__" (String.rev nm)).

Definition _get_attribute_computed (get_attribute : GetAttr) (fuel : nat)
    (n : node) (c : obj_id) (nm : string) (valself : option bref)
    (compute_function : string) : M (node * option var_id) :=
  let* v := gets (λ st, value_of st c) in
  let* _ := assert (isinstance v Class || isinstance_any v AMBIGUOUS_OR_EMPTY) in
  let* ok := gets (λ st,
    match valself with
    | Some vs => negb (isinstance (value_of st (bdata st vs)) Module) && _computable nm
    | None => false
    end) in
  if ok then
    let* attr_var := _lookup_from_mro get_attribute fuel n c compute_function
                       valself [object_type E] in
    let* bs := gets (λ st, bindings st attr_var) in
    match bs with
    | [] => ret (n, None)
    | _ =>
        let* name_var := ext (constant_to_var E nm n) in
        let* r := ext (call_function E n attr_var [name_var]) in
        ret (r.1, Some r.2)
    end
  else ret (n, None).

(** The loop of [_lookup_from_mro_and_handle_descriptors] over the bindings
    found: descriptors are one more level of indirection. *)
Definition handle_descriptor (get_attribute : GetAttr) (n : node) (c : obj_id)
    (valself : option bref) (result : var_id) (nodes : list node) (v : bref)
    : M (list node) :=
  let* value := gets (λ st, bdata st v) in
  let* direct := gets (λ st,
    isinstance (value_of st value) PropertyInstance
    && match valself with
       | Some vs => bool_decide (bdata st vs = c)
       | None => false
       end) in
  let* r := if direct then ret (n, None)
            else get_attribute n value "__get__" (Some v) in
  let* node2 :=
    match r.2 with
    | Some getter =>
        let* through_instance := gets (λ st,
          match valself with
          | Some vs => negb (bool_decide (bdata st vs = c))
          | None => false
          end) in
        let* arg0 := match valself with
                     | Some vs =>
                         if through_instance
                         then Binding_AssignToNewVariable vs None
                         else to_variable (none E) n
                     | None => to_variable (none E) n
                     end in
        let* arg1 := to_variable c n in
        let* g := ext (call_function E r.1 getter [arg0; arg1]) in
        let* got := gets (λ st, binding_refs st g.2) in
        let* _ := foldM (λ _ getter,
                    let* d := gets (λ st, bdata st getter) in
                    let* _ := AddBinding result d [getter] g.1 in ret tt)
                  tt got in
        ret g.1
    | None =>
        let* _ := AddBinding result value [v] r.1 in ret r.1
    end in
  ret (nodes ++ [node2]).

Definition _lookup_from_mro_and_handle_descriptors (get_attribute : GetAttr)
    (fuel : nat) (n : node) (c : obj_id) (nm : string) (valself : option bref)
    (skip : list obj_id) : M (node * option var_id) :=
  let* attr := _lookup_from_mro get_attribute fuel n c nm valself skip in
  let* bs := gets (λ st, binding_refs st attr) in
  match bs with
  | [] => ret (n, None)
  | _ =>
      let* v := gets (λ st, value_of st c) in
      if isinstance v InterpreterClass then
        let* result := NewVariable in
        let* nodes := foldM (handle_descriptor get_attribute n c valself result) [] bs in
        match nodes with
        | [] => ret (n, Some attr)
        | _ => let* j := ext (join_cfg_nodes E nodes) in ret (j, Some result)
        end
      else ret (n, Some attr)
  end.

(** The loop of [_get_attribute] over [obj.mro] that looks for a declared
    annotation of the name. *)
Fixpoint annotation_loop (n : node) (nm : string) (valself : option bref)
    (attr : option var_id) (bases : list obj_id) : M (option var_id) :=
  match bases with
  | [] => ret attr
  | base :: rest =>
      let* b := gets (λ st, value_of st base) in
      if negb (isinstance b InterpreterClass) then ret attr
      else
        let* annots := gets (λ st, get_annotations_dict E st (members b)) in
        let* nonempty := gets (λ st, from_option (is_nonempty E st) false annots) in
        match annots with
        | Some a =>
            if nonempty then
              let* typ := ext (get_type E a n nm) in
              match typ with
              | None => annotation_loop n nm valself attr rest
              | Some typ =>
                  let* t := gets (λ st, value_of st typ) in
                  match valself with
                  | Some vs =>
                      if formal t then
                        let* d := gets (λ st, bdata st vs) in
                        let* ps := ext (get_type_parameters E typ) in
                        let* subst := ext (get_type_parameter_substitutions E d ps) in
                        let* typ := ext (sub_one_annotation E n typ [subst]) in
                        let* r := ext (init_annotation E n nm typ) in
                        ret (Some r.2)
                      else
                        match attr with
                        | None => let* r := ext (init_annotation E n nm typ) in ret (Some r.2)
                        | Some _ => ret attr
                        end
                  | None =>
                      match attr with
                      | None => let* r := ext (init_annotation E n nm typ) in ret (Some r.2)
                      | Some _ => ret attr
                      end
                  end
              end
            else annotation_loop n nm valself attr rest
        | None => annotation_loop n nm valself attr rest
        end
  end.

Definition _get_attribute (get_attribute : GetAttr) (fuel : nat) (n : node)
    (obj : obj_id) (c : option obj_id) (nm : string) (valself : option bref)
    : M (node * option var_id) :=
  let* r := match c with
            | Some c => _get_attribute_computed get_attribute fuel n c nm valself
                          "__getattribute__"
            | None => ret (n, None)
            end in
  let* r := match r.2 with
            | None =>
                let* o := gets (λ st, value_of st obj) in
                if isinstance o Class
                then _lookup_from_mro_and_handle_descriptors get_attribute fuel
                       r.1 obj nm valself []
                else _get_member r.1 obj nm valself
            | Some _ => ret r
            end in
  let* o := gets (λ st, value_of st obj) in
  let* r := match r.2 with
            | None => if maybe_missing_members o
                      then let* u := new_unsolvable r.1 in ret (r.1, Some u)
                      else ret r
            | Some _ => ret r
            end in
  let* r := match r.2, c with
            | None, Some c =>
                let* r := get_attribute r.1 c nm valself in
                match r.2 with
                | None => _get_attribute_computed get_attribute fuel r.1 c nm
                            valself "__getattr__"
                | Some _ => ret r
                end
            | _, _ => ret r
            end in
  let* o := gets (λ st, value_of st obj) in
  let* attr := annotation_loop r.1 nm valself r.2 (mro o) in
  match attr with
  | Some a => let* a := _filter_var fuel r.1 a in ret (r.1, a)
  | None => ret (r.1, None)
  end.

Definition _get_instance_attribute (get_attribute : GetAttr) (fuel : nat)
    (n : node) (obj : obj_id) (nm : string) (valself : option bref)
    : M (node * option var_id) :=
  let* o := gets (λ st, value_of st obj) in
  let* _ := assert (isinstance o SimpleValue) in
  let* c := gets (λ st, value_of st (cls o)) in
  let c := if String.eqb (full_name c) "builtins.type" then None else Some (cls o) in
  _get_attribute get_attribute fuel n obj c nm valself.

Definition _get_class_attribute (get_attribute : GetAttr) (fuel : nat)
    (n : node) (c : obj_id) (nm : string) (valself : option bref)
    : M (node * option var_id) :=
  let* v := gets (λ st, value_of st c) in
  let* _ := assert (isinstance v Class) in
  let* meta := gets (λ st,
    match valself with
    | Some vs =>
        if negb (equivalent_to E st vs c) || bool_decide (c = type_type E)
        then None else Some (cls v)
    | None => None
    end) in
  _get_attribute get_attribute fuel n c meta nm valself.

Definition _should_look_for_submodule (module : obj_id)
    (attr_var : option var_id) : M bool :=
  match attr_var with
  | None => ret true
  | Some attr_var =>
      let* d := gets (λ st, var_data st attr_var) in
      let* attr_cls := ext (merge_classes E d) in
      let* any_module := gets (λ st,
        existsb (λ attr, isinstance (value_of st attr) Module) d) in
      if bool_decide (attr_cls = module_type E) && negb any_module then ret true
      else
        let* m := gets (λ st, value_of st module) in
        let* d := gets (λ st, var_data st attr_var) in
        if bool_decide (Some (name m +:+ ".__init__") = module_name E)
           && bool_decide (d = [unsolvable E])
        then ret true
        else ret false
  end.

Definition _get_module_attribute (get_attribute : GetAttr) (fuel : nat)
    (n : node) (module : obj_id) (nm : string) (valself : option bref)
    : M (node * option var_id) :=
  let* m := gets (λ st, value_of st module) in
  let* _ := assert (isinstance m Module) in
  let* r := _get_instance_attribute get_attribute fuel n module nm valself in
  let* look := _should_look_for_submodule module r.2 in
  if negb look then ret r
  else
    let* sub := ext (get_submodule E module r.1 nm) in
    match sub with
    | Some s => ret (r.1, Some s)
    | None => ret r
    end.

(** [skip] of [_get_attribute_from_super_instance]: the classes of the MRO up
    to and including the first one named like [current_cls]. *)
Fixpoint super_skip (st : State) (current_name : string) (parents : list obj_id)
    : list obj_id :=
  match parents with
  | [] => []
  | parent :: rest =>
      if String.eqb (full_name (value_of st parent)) current_name then [parent]
      else parent :: super_skip st current_name rest
  end.

Definition _get_attribute_from_super_instance (get_attribute : GetAttr)
    (fuel : nat) (n : node) (obj : obj_id) (nm : string) (valself : option bref)
    : M (node * option var_id) :=
  let* o := gets (λ st, value_of st obj) in
  match super_obj o with
  | Some so =>
      let* starting_cls := gets (λ st,
        let sov := value_of st so in
        if String.eqb (full_name (value_of st (cls sov))) "builtins.type"
           || isinstance_any (value_of st (cls sov)) AMBIGUOUS_OR_EMPTY
           || isinstance_any (value_of st (super_cls o)) AMBIGUOUS_OR_EMPTY
        then super_cls o
        else if bool_decide (super_cls o ∈ mro sov) then so
        else cls sov) in
      let current_cls := super_cls o in
      let* vs := to_binding so n in
      let* skip := gets (λ st,
        super_skip st (full_name (value_of st current_cls))
          (mro (value_of st starting_cls))) in
      _lookup_from_mro_and_handle_descriptors get_attribute fuel n starting_cls
        nm (Some vs) skip
  | None =>
      _lookup_from_mro_and_handle_descriptors get_attribute fuel n (super_type E)
        nm valself []
  end.

(** The branch of [get_attribute]'s if/elif chain that a value takes: the
    first test that succeeds. *)
Inductive ReadBranch :=
| RFunction | RParameterizedClass | RClass | ROverlay | RModule | RSimpleValue
| RUnion | RSuperInstance | RSuper | RBoundFunction | RTypeParameterInstance
| REmpty | ROther.

Definition read_branch (o : Value) : ReadBranch :=
  if isinstance o Function then RFunction
  else if isinstance o ParameterizedClass then RParameterizedClass
  else if isinstance o Class then RClass
  else if isinstance o Overlay then ROverlay
  else if isinstance o Module then RModule
  else if isinstance o SimpleValue then RSimpleValue
  else if isinstance o Union then RUnion
  else if isinstance o SuperInstance then RSuperInstance
  else if isinstance o Super then RSuper
  else if isinstance o BoundFunction then RBoundFunction
  else if isinstance o TypeParameterInstance then RTypeParameterInstance
  else if isinstance o Empty then REmpty
  else ROther.

(** The loop of the Union branch: the attribute of every option that has it
    is pasted into [ret_var]. *)
Definition union_option (get_attribute : GetAttr) (n : node) (nm : string)
    (valself : option bref) (ret_var : var_id) (nodes : list node) (o : obj_id)
    : M (list node) :=
  let* r := get_attribute n o nm valself in
  match r.2 with
  | Some attr =>
      let* _ := PasteVariable ret_var attr (Some r.1) in
      ret (nodes ++ [r.1])
  | None => ret nodes
  end.

(** The loop of the TypeParameterInstance branch over the bindings of the
    parameter's variable.  A binding that is visible at the node and has no
    such attribute ends the lookup: the result is None at the node the lookup
    started from. *)
Fixpoint type_parameter_loop (get_attribute : GetAttr) (n : node) (nm : string)
    (valself : option bref) (results : list var_id) (nodes : list node)
    (bs : list bref) : M (node * option var_id) :=
  match bs with
  | [] =>
      match nodes with
      | [] => let* u := new_unsolvable n in ret (n, Some u)
      | _ =>
          let* j := ext (join_cfg_nodes E nodes) in
          let* v := ext (join_variables E j results) in
          ret (j, Some v)
      end
  | b :: rest =>
      let* d := gets (λ st, bdata st b) in
      let* r := get_attribute n d nm valself in
      match r.2 with
      | None =>
          let* vis := gets (λ st, IsVisible st b n) in
          if vis then ret (n, None)
          else type_parameter_loop get_attribute n nm valself results nodes rest
      | Some attr =>
          type_parameter_loop get_attribute n nm valself (results ++ [attr])
            (nodes ++ [r.1]) rest
      end
  end.

(** The variable a type parameter instance stands for: the owning
    instance's binding of the parameter, or the instantiated parameter when
    there is none yet. *)
Definition type_parameter_var (o : Value) : M var_id :=
  let* param_var := ext (get_instance_type_parameter E (instance o) (name o)) in
  let* bs := gets (λ st, bindings st param_var) in
  match bs with
  | [] => ext (instantiate E (param o) (root_node E))
  | _ => ret param_var
  end.

(** [get_attribute], one level: recursive calls go to [rec]. *)
Definition get_attribute_body (rec : GetAttr) (fuel : nat) : GetAttr :=
  λ n obj nm valself,
  let* special_attribute := ext (get_special_attribute E obj n nm valself) in
  match special_attribute with
  | Some a => ret (n, Some a)
  | None =>
      let* o := gets (λ st, value_of st obj) in
      match read_branch o with
      | RFunction =>
          if String.eqb nm "__get__" then ret (n, None)
          else _get_instance_attribute rec fuel n obj nm valself
      | RParameterizedClass => rec n (base_cls o) nm valself
      | RClass => _get_class_attribute rec fuel n obj nm valself
      | ROverlay =>
          let* m := ext (get_module E obj nm) in
          _get_module_attribute rec fuel n m nm valself
      | RModule => _get_module_attribute rec fuel n obj nm valself
      | RSimpleValue => _get_instance_attribute rec fuel n obj nm valself
      | RUnion =>
          if String.eqb nm "__getitem__"
          then let* u := new_unsolvable n in ret (n, Some u)
          else
            let* ret_var := NewVariable in
            let* nodes := foldM (union_option rec n nm valself ret_var) [] (options o) in
            let* bs := gets (λ st, bindings st ret_var) in
            match bs with
            | [] => ret (n, None)
            | _ => let* j := ext (join_cfg_nodes E nodes) in ret (j, Some ret_var)
            end
      | RSuperInstance => _get_attribute_from_super_instance rec fuel n obj nm valself
      | RSuper => rec n (super_type E) nm valself
      | RBoundFunction => rec n (underlying o) nm valself
      | RTypeParameterInstance =>
          let* param_var := type_parameter_var o in
          let* bs := gets (λ st, binding_refs st param_var) in
          type_parameter_loop rec n nm valself [] [] bs
      | REmpty => ret (n, None)
      | ROther => ret (n, None)
      end
  end.

Fixpoint get_attribute (fuel : nat) : GetAttr :=
  match fuel with
  | 0 => λ _ _ _ _, timeout
  | S fuel => get_attribute_body (get_attribute fuel) fuel
  end.

(** ** Runs of the two walks that the statements below speak about *)

(** [passes_over rec fuel nm valself skip n st bases n' st']: walking the
    classes [bases] from node [n] in state [st], [_lookup_from_mro] finds the
    name on none of them (each is skipped, or yields no variable or a
    variable without bindings) and goes on from node [n'] in state [st']. *)
Inductive passes_over (rec : GetAttr) (fuel : nat) (nm : string)
    (valself : option bref) (skip : list obj_id)
    : node → State → list obj_id → node → State → Prop :=
| passes_none n st : passes_over rec fuel nm valself skip n st [] n st
| passes_skipped n st base rest n' st' :
    base ∈ skip →
    passes_over rec fuel nm valself skip n st rest n' st' →
    passes_over rec fuel nm valself skip n st (base :: rest) n' st'
| passes_absent n st base rest n1 st1 n' st' :
    base ∉ skip →
    lookup_in_base rec fuel n base nm valself st = Done st1 (n1, []) →
    passes_over rec fuel nm valself skip n1 st1 rest n' st' →
    passes_over rec fuel nm valself skip n st (base :: rest) n' st'.

(** [collects rec n nm valself st bs results nodes st' results' nodes']:
    looking the name up on the values of the bindings [bs] in turn, starting
    in state [st] with the accumulated [results] and [nodes], every binding
    either has the attribute, or lacks it and is not visible at [n]; the walk
    ends in state [st'] with [results'] and [nodes']. *)
Inductive collects (rec : GetAttr) (n : node) (nm : string)
    (valself : option bref)
    : State → list bref → list var_id → list node
      → State → list var_id → list node → Prop :=
| collects_done st results nodes :
    collects rec n nm valself st [] results nodes st results nodes
| collects_found st b rest results nodes st1 node2 attr st' results' nodes' :
    rec n (bdata st b) nm valself st = Done st1 (node2, Some attr) →
    collects rec n nm valself st1 rest (results ++ [attr]) (nodes ++ [node2])
      st' results' nodes' →
    collects rec n nm valself st (b :: rest) results nodes st' results' nodes'
| collects_hidden st b rest results nodes st1 node2 st' results' nodes' :
    rec n (bdata st b) nm valself st = Done st1 (node2, None) →
    IsVisible st1 b n = false →
    collects rec n nm valself st1 rest results nodes st' results' nodes' →
    collects rec n nm valself st (b :: rest) results nodes st' results' nodes'.

(** The bindings that pasting the variable [src] at node [n] appends. *)
Definition pasted (st : State) (src : var_id) (n : node) : list Binding :=
  (λ b, {| data := bdata st b;
           origins := [{| where_ := n; source_set := [b] |}] |})
    <$> binding_refs st src.

(** A class of the MRO that gives no permission to write the name: it has no
    [__setattr__], does not declare the name, and restricts its slots to
    names other than this one. *)
Definition declines_write (st : State) (nm : string) (b : obj_id) : Prop :=
  contains E st b "__setattr__" = false ∧ contains E st b nm = false ∧
  ∃ s, slots (value_of st b) = Some s ∧ nm ∉ s.

End Handler.

(** Two values that differ at most in their official name. *)
Definition same_but_official_name (v1 v2 : Value) : Prop :=
  with_official_name None v1 = with_official_name None v2.

(** Two states that differ at most in the official names of their values. *)
Definition official_names_only (st st1 : State) : Prop :=
  vars st1 = vars st ∧ errorlog st1 = errorlog st ∧ f_globals st1 = f_globals st ∧
  cfg_edges st1 = cfg_edges st ∧
  ∀ x, same_but_official_name (value_of st1 x) (value_of st x).

Definition never_raises {A} (c : M A) : Prop :=
  ∀ st st' e, c st ≠ Raise st' e.



(** ** A concrete environment and store

    A small instance of the collaborators, used to run the handler on
    concrete stores.  Nodes are numbered along one path of control flow, so
    a node is reachable from every node with a smaller or equal number. *)

Module Demo.

Definition total {A} (c : M A) (d : A) : Ext A :=
  λ st, match c st with
        | Done st' a => (a, st')
        | _ => (d, st)
        end.

Definition with_cls (c : obj_id) (v : Value) : Value :=
  {| class_name := class_name v; py_classes := py_classes v; name := name v;
     full_name := full_name v; cls := c; mro := mro v; slots := slots v;
     members := members v; lazy_names := lazy_names v;
     maybe_missing_members := maybe_missing_members v;
     official_name := official_name v; base_cls := base_cls v;
     options := options v; underlying := underlying v; method := method v;
     instance := instance v; param := param v; constraints := constraints v;
     bound := bound v; formal := formal v;
     formal_type_parameters := formal_type_parameters v;
     super_cls := super_cls v; super_obj := super_obj v |}.

(* identities of the converter's constants in the demo stores *)
Definition OBJECT : obj_id := 0.
Definition TYPE : obj_id := 1.
Definition SUPER : obj_id := 2.
Definition MODULE : obj_id := 3.
Definition ANY : obj_id := 4.
Definition EMPTY : obj_id := 5.
Definition NONE : obj_id := 6.
Definition RESULT : obj_id := 7.   (* what a called function returns *)

Definition env : Env :=
  {| root_node := 0;
     module_name := None;
     object_type := OBJECT;
     type_type := TYPE;
     super_type := SUPER;
     module_type := MODULE;
     unsolvable := ANY;
     empty := EMPTY;
     none := NONE;
     merge_classes := λ d st, (from_option (λ o, cls (value_of st o)) ANY (head d), st);
     constant_to_var := λ _ n, total (to_variable RESULT n) 0;
     join_cfg_nodes := λ nodes st, (foldr Nat.max 0 nodes, st);
     join_variables := λ n vs,
       total (let* v := NewVariable in
              let* _ := foldM (λ _ r, PasteVariable v r (Some n)) tt vs in
              ret v) 0;
     reachable := λ _ a b, a <=? b;
     call_function := λ n _ _, total (let* v := to_variable RESULT n in ret (n, v)) (n, 0);
     equivalent_to := λ st b c,
       isinstance (value_of st (bdata st b)) Class
       && String.eqb (full_name (value_of st (bdata st b))) (full_name (value_of st c));
     get_annotations_dict := λ _ _, None;
     get_type_parameter_substitutions := λ _ _ st, ([], st);
     get_type_parameters := λ _ st, ([], st);
     sub_one_annotation := λ _ typ _ st, (typ, st);
     init_annotation := λ n _ typ, total (let* v := to_variable typ n in ret (n, v)) (n, 0);
     contains := λ st o nm, bool_decide (nm ∈ dom (members_of st o));
     is_nonempty := λ _ _, true;
     get_special_attribute := λ _ _ _ _ st, (None, st);
     get_module := λ o _ st, (o, st);
     get_submodule := λ _ _ _ st, (None, st);
     get_instance_type_parameter := λ o nm st,
       match members_of st o !! nm with
       | Some v => (v, st)
       | None => total NewVariable 0 st
       end;
     instantiate := λ _ n, total (to_variable ANY n) 0;
     property_get := λ value _ _ st, (value, st);
     property_call := λ _ n, total (let* v := NewVariable in ret (n, v)) (n, 0);
     get_type := λ _ _ _ st, (None, st);
     convert_member := λ _ _ _, total (to_variable ANY 0) 0;
     convert_as_instance_attribute := λ _ _ _ st, (None, st);
     set_class := λ obj n var st,
       (n, with_objs (<[obj := with_cls (default ANY (head (var_data st var)))
                                (value_of st obj)]> (objs st)) st);
     set_function_defaults := λ _ n _, total (let* _ := to_variable ANY n in ret tt) tt;
     official_name_after := λ _ nm, Some nm |}.

Definition a_class (nm full : string) (meta : obj_id) (bases : list obj_id)
    (sl : option (list string)) (kinds : list PyClass) (m : gmap string var_id)
    : Value :=
  {| class_name := "InterpreterClass"; py_classes := SimpleValue :: Class :: kinds;
     name := nm; full_name := full; cls := meta; mro := bases; slots := sl;
     members := m; lazy_names := []; maybe_missing_members := false;
     official_name := None; base_cls := 0; options := []; underlying := 0;
     method := 0; instance := 0; param := 0; constraints := []; bound := None;
     formal := false; formal_type_parameters := []; super_cls := 0;
     super_obj := None |}.

Definition an_instance (c : obj_id) (m : gmap string var_id) : Value :=
  {| class_name := "Instance"; py_classes := [SimpleValue; Instance];
     name := ""; full_name := ""; cls := c; mro := []; slots := None;
     members := m; lazy_names := []; maybe_missing_members := false;
     official_name := None; base_cls := 0; options := []; underlying := 0;
     method := 0; instance := 0; param := 0; constraints := []; bound := None;
     formal := false; formal_type_parameters := []; super_cls := 0;
     super_obj := None |}.

Definition a_function (kind : PyClass) (c : obj_id) (m : gmap string var_id) : Value :=
  {| class_name := "Function"; py_classes := [SimpleValue; Function; kind];
     name := "f"; full_name := "f"; cls := c; mro := []; slots := None;
     members := m; lazy_names := []; maybe_missing_members := false;
     official_name := None; base_cls := 0; options := []; underlying := 0;
     method := 0; instance := 0; param := 0; constraints := []; bound := None;
     formal := false; formal_type_parameters := []; super_cls := 0;
     super_obj := None |}.

(** A value of a class that attribute.py has no case for. *)
Definition an_other (nm : string) (c : obj_id) : Value :=
  {| class_name := nm; py_classes := []; name := nm; full_name := nm; cls := c;
     mro := []; slots := None; members := ∅; lazy_names := [];
     maybe_missing_members := false; official_name := None; base_cls := 0;
     options := []; underlying := 0; method := 0; instance := 0; param := 0;
     constraints := []; bound := None; formal := false;
     formal_type_parameters := []; super_cls := 0; super_obj := None |}.

Definition a_type_parameter_instance (owner : obj_id) (nm : string) (p : obj_id)
    : Value :=
  {| class_name := "TypeParameterInstance"; py_classes := [TypeParameterInstance];
     name := nm; full_name := nm; cls := ANY; mro := []; slots := None;
     members := ∅; lazy_names := []; maybe_missing_members := false;
     official_name := None; base_cls := 0; options := []; underlying := 0;
     method := 0; instance := owner; param := p; constraints := [];
     bound := None; formal := false; formal_type_parameters := [];
     super_cls := 0; super_obj := None |}.

Definition bound_at (d : obj_id) (n : node) : Binding :=
  {| data := d; origins := [{| where_ := n; source_set := [] |}] |}.

(** The values every demo store starts with: object, type (with the given
    members), super, module, the unsolvable value (whose class has no MRO),
    empty, None and the value returned by calls. *)
Definition builtins (type_members : gmap string var_id) : list Value :=
  [ a_class "object" "builtins.object" TYPE [OBJECT] None [PyTDClass] ∅;
    a_class "type" "builtins.type" TYPE [TYPE; OBJECT] None [PyTDClass] type_members;
    a_class "super" "builtins.super" TYPE [SUPER; OBJECT] None [PyTDClass] ∅;
    a_class "module" "builtins.module" TYPE [MODULE; OBJECT] None [PyTDClass] ∅;
    {| class_name := "Unsolvable"; py_classes := [Unsolvable]; name := "?";
       full_name := "?"; cls := ANY; mro := []; slots := None; members := ∅;
       lazy_names := []; maybe_missing_members := false; official_name := None;
       base_cls := 0; options := []; underlying := 0; method := 0;
       instance := 0; param := 0; constraints := []; bound := None;
       formal := false; formal_type_parameters := []; super_cls := 0;
       super_obj := None |};
    an_other "Empty" ANY;
    an_instance OBJECT ∅;
    an_instance OBJECT ∅ ].

Definition store_with (type_members : gmap string var_id) (extra : list Value)
    (vs : list (list Binding)) : State :=
  {| objs := builtins type_members ++ extra; vars := vs; cfg_edges := [];
     errorlog := []; f_globals := None |}.

Definition store := store_with ∅.

(** A class with a [__getattribute__] hook (variable 0) and an instance of it
    (value 9) that stores [x] (variable 1) and [__x__] (variable 2); variable
    3 binds the instance and is the self binding of the reads. *)
Definition hooked : State :=
  store [ a_class "C" "C" TYPE [8; OBJECT] None [InterpreterClass]
            {[ "__getattribute__" := 0 ]};
          an_instance 8 {[ "x" := 1; "__x__" := 2 ]} ]
        [ [bound_at 10 0]; [bound_at 11 0]; [bound_at 12 0]; [bound_at 9 0] ].

(** Class A (value 8, MRO A, B) defines [x] with a binding that originates at
    node 5; class B (value 9) defines [x] with a binding that originates at
    node 0.  At node 1 only B's binding is visible. *)
Definition shadowed : State :=
  store [ a_class "A" "A" TYPE [8; 9] None [InterpreterClass] {[ "x" := 0 ]};
          a_class "B" "B" TYPE [9] None [InterpreterClass] {[ "x" := 1 ]} ]
        [ [bound_at 20 5]; [bound_at 21 0] ].

(** A class without slot restriction (value 8) and an instance of it (value
    9) that stores the given members; variable 0 holds an earlier value,
    variable 1 the value to write. *)
Definition written (m : gmap string var_id) : State :=
  store [ a_class "Foo" "Foo" TYPE [8; OBJECT] None [InterpreterClass] ∅;
          an_instance 8 m ]
        [ [bound_at 20 0]; [bound_at 21 1] ].

(** A class whose slots are restricted to [a] (value 8) and an instance of it
    (value 9). *)
Definition slotted : State :=
  store [ a_class "S" "S" TYPE [8; OBJECT] (Some ["a"]) [InterpreterClass] ∅;
          an_instance 8 ∅ ]
        [ [bound_at 20 0] ].

(** The class of functions (value 8) and a function (value 9). *)
Definition with_function : State :=
  store [ a_class "function" "builtins.function" TYPE [8; OBJECT] None [PyTDClass] ∅;
          a_function PyTDFunction 8 ∅ ]
        [ [bound_at 20 0] ].



(** An instance (value 8) whose type parameter T is bound by variable 0 to
    the given alternatives; the type parameter instance (value 9); an
    instance that stores [x] (value 10, variable 1) and one that stores
    nothing (value 11), both of class 12. *)
Definition with_type_parameter (alternatives : list Binding) : State :=
  store [ an_instance 12 {[ "T" := 0 ]};
          a_type_parameter_instance 8 "T" ANY;
          an_instance 12 {[ "x" := 1 ]};
          an_instance 12 ∅;
          a_class "Box" "Box" TYPE [12; OBJECT] None [InterpreterClass] ∅ ]
        [ alternatives; [bound_at 30 0] ].

(** What the runs at the end of the file observe of a result. *)
Definition outcome {A} (r : Res A) : option A :=
  match r with Done _ a => Some a | _ => None end.

Definition final {A} (r : Res A) : option State :=
  match r with Done st _ | Raise st _ => Some st | Timeout => None end.

End Demo.

(** ** Notions used by the further properties *)

(** The test [_check_writable] makes on one class of the MRO (other than
    builtins.object): the class grants the write of the name. *)
Definition grants_write (E : Env) (st : State) (nm : string) (b : obj_id) : bool :=
  isinstance (value_of st b) SimpleValue
    && (contains E st b "__setattr__" || contains E st b nm)
  || match slots (value_of st b) with
     | None => true
     | Some s => bool_decide (nm ∈ s)
     end.

(** Nothing stored is lost from [st] to [st']: every member mapping and the
    bindings of every variable only grow. *)
Definition store_grows (st st' : State) : Prop :=
  (∀ o k v, members_of st o !! k = Some v → members_of st' o !! k = Some v)
  ∧ (∀ v, bindings st v `prefix_of` bindings st' v).

(** The collaborators of the write path lose nothing that is stored. *)
Definition write_collaborators_grow (E : Env) : Prop :=
  (∀ o nm s st, store_grows st (convert_member E o nm s st).2)
  ∧ (∀ b nm o st, store_grows st (convert_as_instance_attribute E b nm o st).2)
  ∧ (∀ o n v st, store_grows st (set_class E o n v st).2)
  ∧ (∀ o n v st, store_grows st (set_function_defaults E o n v st).2)
  ∧ (∀ o nm st, store_grows st (get_instance_type_parameter E o nm st).2)
  ∧ (∀ ns st, store_grows st (join_cfg_nodes E ns st).2).

(** A computation that loses nothing that is stored. *)
Definition grows {A} (c : M A) : Prop :=
  ∀ st st' a, c st = Done st' a → store_grows st st'.

(** ** The attrs overlay (pytype/overlays/attr_overlay.py) *)

(** The character of the string ["_"]. *)
Definition underscore : Ascii.ascii :=
  match "_" with String a _ => a | EmptyString => Ascii.zero end.

(** [str.lstrip("_")] *)
Fixpoint lstrip_underscores (s : string) : string :=
  match s with
  | String a rest =>
      if Ascii.eqb a underscore then lstrip_underscores rest else s
  | EmptyString => s
  end.

(** [Attrs.init_name]: attrs removes leading underscores from attrib names
    when generating kwargs for [__init__]. *)
Definition init_name (attr_name : string) : string :=
  lstrip_underscores attr_name.

(** [n] underscores. *)
Fixpoint underscores (n : nat) : string :=
  match n with
  | 0 => ""
  | S n => String underscore (underscores n)
  end.

(** ** Further concrete stores *)

Module Cases.

Definition a_super_instance (current : obj_id) (self : option obj_id) : Value :=
  {| class_name := "SuperInstance"; py_classes := [SuperInstance];
     name := "super"; full_name := "super"; cls := Demo.SUPER; mro := [];
     slots := None; members := ∅; lazy_names := [];
     maybe_missing_members := false; official_name := None; base_cls := 0;
     options := []; underlying := 0; method := 0; instance := 0; param := 0;
     constraints := []; bound := None; formal := false;
     formal_type_parameters := []; super_cls := current; super_obj := self |}.

Definition a_module (nm : string) (m : gmap string var_id) : Value :=
  {| class_name := "Module"; py_classes := [SimpleValue; Module];
     name := nm; full_name := nm; cls := Demo.MODULE; mro := [];
     slots := None; members := m; lazy_names := [];
     maybe_missing_members := false; official_name := None; base_cls := 0;
     options := []; underlying := 0; method := 0; instance := 0; param := 0;
     constraints := []; bound := None; formal := false;
     formal_type_parameters := []; super_cls := 0; super_obj := None |}.

Definition a_property_instance : Value :=
  {| class_name := "PropertyInstance";
     py_classes := [SimpleValue; PropertyInstance];
     name := "property"; full_name := "property"; cls := Demo.ANY; mro := [];
     slots := None; members := ∅; lazy_names := [];
     maybe_missing_members := false; official_name := None; base_cls := 0;
     options := []; underlying := 0; method := 0; instance := 0; param := 0;
     constraints := []; bound := None; formal := false;
     formal_type_parameters := []; super_cls := 0; super_obj := None |}.

(** Variable 0 has one binding that originates at node 0 and one that
    originates at node 5: at node 1 only the first is visible. *)
Definition mixed : State :=
  Demo.store [] [ [Demo.bound_at Demo.NONE 0; Demo.bound_at Demo.RESULT 5] ].

(** Class C (value 8) is the only class of its MRO and defines [f]; value 9
    is an instance of C and value 10 is [super(C, instance)]. *)
Definition with_super : State :=
  Demo.store [ Demo.a_class "C" "C" Demo.TYPE [8] None [InterpreterClass]
                 {[ "f" := 0 ]};
               Demo.an_instance 8 ∅;
               a_super_instance 8 (Some 9) ]
             [ [Demo.bound_at 20 0] ].

(** A module (value 8) that stores nothing. *)
Definition with_module : State :=
  Demo.store [ a_module "m" ∅ ] [].

(** Class P (value 8) defines [p] (variable 0) as a property (value 9);
    variable 1 binds P itself and is the self binding of the read. *)
Definition with_property : State :=
  Demo.store [ Demo.a_class "P" "P" Demo.TYPE [8; Demo.OBJECT] None
                 [InterpreterClass] {[ "p" := 0 ]};
               a_property_instance ]
             [ [Demo.bound_at 9 0]; [Demo.bound_at 8 0] ].

(** As [Demo.hooked], but the binding of [__getattribute__] originates at
    node 5: it is not visible at node 1. *)
Definition hooked_late : State :=
  Demo.store [ Demo.a_class "C" "C" Demo.TYPE [8; Demo.OBJECT] None
                 [InterpreterClass] {[ "__getattribute__" := 0 ]};
               Demo.an_instance 8 {[ "x" := 1; "__x__" := 2 ]} ]
             [ [Demo.bound_at 10 5]; [Demo.bound_at 11 0]; [Demo.bound_at 12 0];
               [Demo.bound_at 9 0] ].



End Cases.

(** * Properties of the handler *)

Section Properties.

Variable E : Env.

Lemma bind_Done {A B} (c : M A) (k : A → M B) st st' a :
  c st = Done st' a → bind c k st = k a st'.
Proof. unfold bind. by intros ->. Qed.

Lemma value_of_insert st o v x :
  value_of (with_objs (<[o := v]> (objs st)) st) x =
  if bool_decide (x = o ∧ o < length (objs st)) then v else value_of st x.
Proof.
  unfold value_of; simpl. case_bool_decide as H.
  - destruct H as [-> H]. by rewrite list_lookup_insert_eq.
  - destruct (decide (x = o)) as [->|Hne].
    + rewrite list_insert_ge; [done|]. lia.
    + by rewrite list_lookup_insert_ne.
Qed.

Lemma official_names_only_refl st : official_names_only st st.
Proof. by split_and!. Qed.

Lemma update_official_name_only o nm st :
  ∃ st1, update_official_name E o nm st = Done st1 tt ∧ official_names_only st st1.
Proof.
  eexists; split; [reflexivity|]. split_and!; try done.
  intros x. rewrite value_of_insert. case_bool_decide as H; [|done].
  destruct H as [-> _]. done.
Qed.

Lemma official_names_only_trans st st1 st2 :
  official_names_only st st1 → official_names_only st1 st2 → official_names_only st st2.
Proof.
  intros (?&?&?&?&Ha) (?&?&?&?&Hb). split_and!; try congruence.
  all: intros x; unfold same_but_official_name in *; by rewrite Hb.
Qed.

Lemma update_official_names_only obj nm value st :
  ∃ st1, update_official_names E obj nm value st = Done st1 tt ∧ official_names_only st st1.
Proof.
  unfold update_official_names, bind, gets. case_bool_decide as Hg.
  - generalize (var_data st value). intros d. clear Hg. revert st.
    induction d as [|v d IH]; intros st; simpl.
    + eexists; split; [done|apply official_names_only_refl].
    + destruct (update_official_name_only v nm st) as (st1 & Hs & Ho).
      unfold bind. rewrite Hs. destruct (IH st1) as (st2 & Hs2 & Ho2).
      exists st2. split; [done|]. by eapply official_names_only_trans.
  - eexists; split; [done|apply official_names_only_refl].
Qed.

Lemma same_but_official_name_members v1 v2 :
  same_but_official_name v1 v2 → members v1 = members v2.
Proof. intros H. by apply (f_equal members) in H. Qed.

Lemma same_but_official_name_classes v1 v2 :
  same_but_official_name v1 v2 → py_classes v1 = py_classes v2.
Proof. intros H. by apply (f_equal py_classes) in H. Qed.


Lemma check_writable_mro_declined st nm bases :
  (∀ b, b ∈ bases → full_name (value_of st b) ≠ "builtins.object" → declines_write E st nm b) →
  check_writable_mro E st nm bases = false.
Proof.
  induction bases as [|b rest IH]; intros H; simpl; [done|].
  destruct (String.eqb_spec (full_name (value_of st b)) "builtins.object") as [Heq|Hne].
  - apply IH. intros b' Hb'. apply H. by right.
  - destruct (H b (list_elem_of_here _ _) Hne) as (Hs & Hn & s & Hsl & Hnot).
    rewrite Hs, Hn, Hsl. rewrite andb_false_r. simpl.
    rewrite bool_decide_eq_false_2 by done.
    apply IH. intros b' Hb'. apply H. by right.
Qed.

(** C3.  When the MRO of the object's class is not empty and every class in
    it other than builtins.object gives no permission to write the name (no
    [__setattr__], the name is not declared, the slots are restricted and do
    not list the name), [set_attribute] logs one not-writable error, returns
    the node it was given, and leaves every value and every variable -- in
    particular the object's member mapping -- unchanged. *)
Theorem set_attribute_not_writable fuel st n obj nm value :
  mro (value_of st (cls (value_of st obj))) ≠ [] →
  (∀ b, b ∈ mro (value_of st (cls (value_of st obj))) →
        full_name (value_of st b) ≠ "builtins.object" → declines_write E st nm b) →
  ∃ st', set_attribute E (S fuel) n obj nm value st = Done st' n
         ∧ errorlog st' = errorlog st ++ [(obj, nm)]
         ∧ objs st' = objs st ∧ vars st' = vars st
         ∧ members_of st' obj = members_of st obj.
Proof.
  intros Hne Hall. exists (with_errorlog (errorlog st ++ [(obj, nm)]) st).
  split; [|done].
  simpl. unfold bind, _check_writable.
  destruct (mro (value_of st (cls (value_of st obj)))) as [|b rest] eqn:Hm; [done|].
  rewrite check_writable_mro_declined by done. simpl. reflexivity.
Qed.


Lemma write_branch_classes v1 v2 :
  py_classes v1 = py_classes v2 → write_branch v1 = write_branch v2.
Proof.
  intros H. unfold write_branch, isinstance_any, isinstance; simpl. by rewrite H.
Qed.

Lemma isinstance_classes v1 v2 c :
  py_classes v1 = py_classes v2 → isinstance v1 c = isinstance v2 c.
Proof. intros H. unfold isinstance. by rewrite H. Qed.

Lemma check_writable_cases obj nm st :
  _check_writable E obj nm st = Done st true
  ∨ _check_writable E obj nm st
    = Done (with_errorlog (errorlog st ++ [(obj, nm)]) st) false.
Proof.
  unfold _check_writable.
  destruct (mro (value_of st (cls (value_of st obj)))); [by left|].
  destruct (check_writable_mro E st nm _); [by left|by right].
Qed.

(** Exceptions *)



Lemma never_raises_ret {A} (a : A) : never_raises (ret a).
Proof. by intros st st' e. Qed.

Lemma never_raises_gets {A} (f : State → A) : never_raises (gets f).
Proof. by intros st st' e. Qed.

Lemma never_raises_modify f : never_raises (modify f).
Proof. by intros st st' e. Qed.

Lemma never_raises_ext {A} (f : Ext A) : never_raises (ext f).
Proof. intros st st' e. unfold ext. by destruct (f st). Qed.

Lemma never_raises_timeout {A} : never_raises (@timeout A).
Proof. by intros st st' e. Qed.

Lemma never_raises_bind {A B} (c : M A) (k : A → M B) :
  never_raises c → (∀ a, never_raises (k a)) → never_raises (bind c k).
Proof.
  intros Hc Hk st st' e. unfold bind. destruct (c st) eqn:Hcs; try done.
  - apply Hk.
  - by apply Hc in Hcs.
Qed.

Lemma never_raises_foldM {A B} (f : B → A → M B) b xs :
  (∀ b a, never_raises (f b a)) → never_raises (foldM f b xs).
Proof.
  intros Hf. revert b. induction xs as [|x xs IH]; intros b; simpl.
  - apply never_raises_ret.
  - apply never_raises_bind; [apply Hf|apply IH].
Qed.




Create HintDb raises.
#[local] Hint Resolve never_raises_ret never_raises_gets never_raises_modify
  never_raises_ext never_raises_timeout : raises.

Ltac no_raise :=
  repeat first
    [ apply never_raises_ret | apply never_raises_gets | apply never_raises_modify
    | apply never_raises_ext | apply never_raises_timeout
    | apply never_raises_foldM; intros
    | apply never_raises_bind; [|intros]
    | match goal with
      | |- never_raises (if ?b then _ else _) => destruct b
      | |- never_raises (match ?x with _ => _ end) => destruct x
      | |- never_raises (let (_, _) := ?x in _) => destruct x
      end ].

Lemma never_raises_AddBinding v d srcs n : never_raises (AddBinding v d srcs n).
Proof. by intros st st' e. Qed.

Lemma never_raises_PasteBinding v b w : never_raises (PasteBinding v b w).
Proof. by intros st st' e. Qed.

Lemma never_raises_NewVariable : never_raises NewVariable.
Proof. by intros st st' e. Qed.

Lemma never_raises_PasteVariable v src w : never_raises (PasteVariable v src w).
Proof. unfold PasteVariable. no_raise; try apply never_raises_PasteBinding. Qed.

Lemma never_raises_AssignToNewVariable src w : never_raises (AssignToNewVariable src w).
Proof.
  unfold AssignToNewVariable. no_raise;
    auto using never_raises_NewVariable, never_raises_PasteVariable.
Qed.

Lemma never_raises_set_member_slot o nm v : never_raises (set_member_slot o nm v).
Proof. unfold set_member_slot, set_value. no_raise. Qed.

#[local] Hint Resolve never_raises_NewVariable never_raises_PasteVariable
  never_raises_AssignToNewVariable never_raises_set_member_slot : raises.

Lemma never_raises_load_lazy_attribute o nm subst :
  never_raises (load_lazy_attribute E o nm subst).
Proof.
  unfold load_lazy_attribute. no_raise; try apply never_raises_set_member_slot.
Qed.


Lemma never_raises_update_official_names obj nm value :
  never_raises (update_official_names E obj nm value).
Proof.
  unfold update_official_names, update_official_name, set_value. no_raise.
Qed.

Lemma never_raises_check_writable obj nm : never_raises (_check_writable E obj nm).
Proof.
  intros st st' e. by destruct (check_writable_cases obj nm st) as [-> | ->].
Qed.





Lemma write_branch_SimpleValue v :
  write_branch v = WSimpleValue → isinstance v SimpleValue = true.
Proof.
  unfold write_branch.
  repeat match goal with
         | |- context [if ?b then _ else _] => destruct b eqn:?; try done
         end.
Qed.




Lemma isinstance_any_classes v1 v2 cs :
  py_classes v1 = py_classes v2 → isinstance_any v1 cs = isinstance_any v2 cs.
Proof. intros H. unfold isinstance_any, isinstance. by rewrite H. Qed.

Lemma official_names_only_members st st1 x :
  official_names_only st st1 → members_of st1 x = members_of st x.
Proof.
  intros (_ & _ & _ & _ & H). apply same_but_official_name_members, H.
Qed.

(** C10.  Writing [__defaults__] to a PyTDFunction or SignedFunction (a
    SimpleValue without lazy members) returns the node it was given and
    leaves every member mapping as it was; when the function passes the
    writability check, the state that results is the one
    [set_function_defaults] produces (which itself is assumed to leave the
    member mappings alone). *)
Theorem set_attribute_function_defaults fuel st n obj value :
  isinstance_any (value_of st obj) [PyTDFunction; SignedFunction] = true →
  write_branch (value_of st obj) = WSimpleValue →
  isinstance (value_of st obj) LazyMembers = false →
  (∀ s x, members_of (set_function_defaults E obj n value s).2 x = members_of s x) →
  ∃ st', set_attribute E (S fuel) n obj "__defaults__" value st = Done st' n
         ∧ (∀ x, members_of st' x = members_of st x)
         ∧ (_check_writable E obj "__defaults__" st = Done st true →
            ∃ st1, update_official_names E obj "__defaults__" value st = Done st1 tt
                   ∧ st' = (set_function_defaults E obj n value st1).2).
Proof.
  intros Hf Hb Hl Hframe. simpl. unfold bind at 1.
  destruct (check_writable_cases obj "__defaults__" st) as [Hw | Hw]; rewrite Hw; simpl.
  - unfold set_attribute_dispatch.
    destruct (update_official_names_only obj "__defaults__" value st) as (st1 & Hu & Ho).
    rewrite (bind_Done _ _ _ _ _ Hu). unfold bind at 1, gets.
    pose proof Ho as (_ & _ & _ & _ & Hc). specialize (Hc obj).
    apply same_but_official_name_classes in Hc.
    rewrite (write_branch_classes _ _ Hc), Hb.
    unfold _set_member. unfold bind at 1, gets.
    rewrite (isinstance_classes _ _ _ Hc), Hl. unfold bind at 1, ret.
    rewrite (isinstance_any_classes _ _ _ Hc), Hf. simpl.
    unfold bind, ext.
    pose proof (Hframe st1) as Hfr.
    destruct (set_function_defaults E obj n value st1) as [[] st2] eqn:Hsfd;
      simpl in *.
    exists st2. split; [done|]. split.
    + intros x. rewrite Hfr. by apply official_names_only_members.
    + intros _. exists st1. by rewrite Hsfd.
  - eexists. split; [done|]. split; [done|]. intros [=].
Qed.

(** Pasting *)

Lemma with_vars_self st : with_vars (vars st) st = st.
Proof. by destruct st. Qed.

Lemma bindings_insert st v L x :
  v < length (vars st) →
  bindings (with_vars (<[v := L]> (vars st)) st) x
  = if decide (x = v) then L else bindings st x.
Proof.
  intros Hv. unfold bindings; simpl. destruct (decide (x = v)) as [->|Hne].
  - by rewrite list_lookup_insert_eq.
  - by rewrite list_lookup_insert_ne.
Qed.

Lemma binding_at_insert_app st v extra b :
  v < length (vars st) → is_Some (binding_at st b) →
  binding_at (with_vars (<[v := bindings st v ++ extra]> (vars st)) st) b
  = binding_at st b.
Proof.
  intros Hv [x Hx]. destruct b as [b1 b2]. unfold binding_at in *; simpl in *.
  rewrite bindings_insert by done.
  destruct (decide (b1 = v)) as [->|]; [|done].
  rewrite Hx. by apply lookup_app_l_Some.
Qed.

Lemma paste_fold v n st bs extra :
  v < length (vars st) →
  (∀ b, b ∈ bs → is_Some (binding_at st b)) →
  foldM (λ _ b, PasteBinding v b (Some n)) tt bs
    (with_vars (<[v := bindings st v ++ extra]> (vars st)) st)
  = Done (with_vars
            (<[v := bindings st v ++ extra ++
                    ((λ b, {| data := bdata st b;
                              origins := [{| where_ := n; source_set := [b] |}] |})
                       <$> bs)]> (vars st)) st) tt.
Proof.
  intros Hv. revert extra. induction bs as [|b bs IH]; intros extra Hb; simpl.
  - by rewrite app_nil_r.
  - unfold bind at 1, PasteBinding at 1, append_binding.
    rewrite bindings_insert by done. rewrite decide_True by done.
    unfold bdata at 1. rewrite binding_at_insert_app; [|done|apply Hb; left].
    fold (bdata st b). cbn [vars with_vars]. rewrite list_insert_insert_eq.
    rewrite <- app_assoc.
    change (with_vars ?x (with_vars ?y st)) with (with_vars x st).
    rewrite IH; [|intros b' Hb'; apply Hb; by right].
    by rewrite <- app_assoc.
Qed.

Lemma binding_refs_is_Some st src b :
  b ∈ binding_refs st src → is_Some (binding_at st b).
Proof.
  unfold binding_refs. intros (i & -> & Hi)%list_elem_of_fmap.
  apply elem_of_seq in Hi. unfold binding_at; simpl.
  apply lookup_lt_is_Some. lia.
Qed.

Lemma PasteVariable_at v src n st :
  v < length (vars st) →
  PasteVariable v src (Some n) st
  = Done (with_vars (<[v := bindings st v ++ pasted st src n]> (vars st)) st) tt.
Proof.
  intros Hv. unfold PasteVariable. unfold bind at 1, gets.
  pose proof (paste_fold v n st (binding_refs st src) [] Hv
                (binding_refs_is_Some st src)) as H.
  rewrite app_nil_r in H.
  assert (Hid : <[v := bindings st v]> (vars st) = vars st).
  { apply list_insert_id. unfold bindings.
    destruct (lookup_lt_is_Some_2 (vars st) v Hv) as [x ->]. done. }
  rewrite Hid, with_vars_self in H. exact H.
Qed.

Lemma pasted_data st src n : data <$> pasted st src n = var_data st src.
Proof.
  unfold pasted, binding_refs, var_data, bdata, binding_at.
  rewrite <- !list_fmap_compose. simpl.
  apply list_eq. intros i. rewrite !list_lookup_fmap.
  destruct (decide (i < length (bindings st src))) as [Hi|Hi].
  - rewrite lookup_seq_lt by done. simpl.
    destruct (lookup_lt_is_Some_2 _ _ Hi) as [x ->]. done.
  - rewrite lookup_seq_ge by lia. rewrite lookup_ge_None_2 by lia. done.
Qed.

Lemma pasted_visible st st' src n n' b :
  b ∈ pasted st src n → reachable E st' n n' = true → visible_at E st' n' b = true.
Proof.
  unfold pasted. intros (r & -> & _)%list_elem_of_fmap Hr.
  unfold visible_at; simpl. by rewrite Hr.
Qed.

Lemma vars_eq_pasted st st1 src n :
  vars st1 = vars st → pasted st1 src n = pasted st src n.
Proof.
  intros H. unfold pasted, binding_refs, bdata, binding_at, bindings. by rewrite H.
Qed.

Lemma vars_eq_bindings st st1 v :
  vars st1 = vars st → bindings st1 v = bindings st v.
Proof. intros H. unfold bindings. by rewrite H. Qed.



Lemma Bindings_all_visible st var n :
  (∀ b, b ∈ binding_refs st var → IsVisible E st b n = true) →
  Bindings E st var n = binding_refs st var.
Proof.
  unfold Bindings. generalize (binding_refs st var). intros l.
  induction l as [|b l IH]; intros H; [done|].
  rewrite filter_cons_True by (apply H; left).
  f_equal. apply IH. intros b' Hb'. apply H. by right.
Qed.

Lemma existsb_all_false {A} (f : A → bool) l :
  (∀ x, x ∈ l → f x = false) → existsb f l = false.
Proof.
  induction l as [|x l IH]; intros H; simpl; [done|].
  rewrite H by left. apply IH. intros y Hy. apply H. by right.
Qed.

Lemma binding_refs_nil st var : binding_refs st var = [] ↔ bindings st var = [].
Proof.
  unfold binding_refs. split.
  - intros H. apply fmap_nil_inv in H. by destruct (bindings st var).
  - by intros ->.
Qed.

(** C8 (amended).  For a variable that has at least one binding, all of
    whose bindings are visible at the node and none of whose values is a
    type parameter instance, [_filter_var] returns that same variable (its
    identity, in an unchanged state), whatever the fuel; so filtering the
    result again returns it once more. *)
Theorem filter_var_returns_same_variable fuel st n var :
  bindings st var ≠ [] →
  (∀ b, b ∈ binding_refs st var → IsVisible E st b n = true) →
  (∀ b, b ∈ binding_refs st var →
        isinstance (value_of st (bdata st b)) TypeParameterInstance = false) →
  _filter_var E fuel n var st = Done st (Some var)
  ∧ ∀ fuel', (let* once := _filter_var E fuel n var in
              match once with
              | Some var' => _filter_var E fuel' n var'
              | None => ret None
              end) st = Done st (Some var).
Proof.
  intros Hne Hvis Htpi.
  assert (H : ∀ f, _filter_var E f n var st = Done st (Some var)).
  { intros f. unfold _filter_var. unfold bind at 1, gets.
    rewrite Bindings_all_visible by done.
    destruct (binding_refs st var) as [|b l] eqn:Hl.
    { by apply binding_refs_nil in Hl. }
    unfold bind at 1, gets. unfold bind at 1, gets.
    rewrite Hl, Nat.eqb_refl, existsb_all_false by done. done. }
  split; [apply H|]. intros fuel'. rewrite (bind_Done _ _ _ _ _ (H fuel)). apply H.
Qed.


Lemma read_branch_SimpleValue v :
  read_branch v = RSimpleValue → isinstance v SimpleValue = true.
Proof.
  unfold read_branch.
  repeat match goal with
         | |- context [if ?b then _ else _] => destruct b eqn:?; try done
         end.
Qed.

(** C1 (amended).  Reading, with a self binding that is not a module, a name
    that does not both start and end with two underscores on an instance
    (read as a SimpleValue, its special-attribute hook not answering) whose
    class is not builtins.type: when the walk of the class's MRO for
    [__getattribute__], builtins.object skipped, yields a hook with at least
    one binding, the hook is called with the name, and the attribute is what
    the call returned, passed through the annotation check and the
    visibility filter; the member storage of the instance, its class and
    [__getattr__] are not consulted. *)
Theorem getattribute_hook_wins fuel st n obj nm vs st0 st1 hook name_var st2 n3 r st3 :
  let o := value_of st0 obj in
  let c := cls o in
  get_special_attribute E obj n nm (Some vs) st = (None, st0) →
  read_branch o = RSimpleValue →
  full_name (value_of st0 c) ≠ "builtins.type" →
  isinstance (value_of st0 c) Class
    || isinstance_any (value_of st0 c) AMBIGUOUS_OR_EMPTY = true →
  isinstance (value_of st0 (bdata st0 vs)) Module = false →
  _computable nm = true →
  _lookup_from_mro E (get_attribute E fuel) fuel n c "__getattribute__" (Some vs)
    [object_type E] st0 = Done st1 hook →
  bindings st1 hook ≠ [] →
  constant_to_var E nm n st1 = (name_var, st2) →
  call_function E n hook [name_var] st2 = ((n3, r), st3) →
  get_attribute E (S fuel) n obj nm (Some vs) st
  = (let* attr := annotation_loop E n3 nm (Some vs) (Some r) (mro (value_of st3 obj)) in
     match attr with
     | Some a => let* a := _filter_var E fuel n3 a in ret (n3, a)
     | None => ret (n3, None)
     end) st3.
Proof.
  intros o c Hs Hb Hty Hassert Hmod Hcomp Hlook Hhook Hname Hcall.
  simpl. unfold get_attribute_body. unfold bind at 1, ext. rewrite Hs.
  unfold bind at 1, gets. fold o. rewrite Hb.
  unfold _get_instance_attribute. unfold bind at 1, gets. fold o.
  rewrite (read_branch_SimpleValue _ Hb). simpl. unfold bind at 1, ret.
  unfold bind at 1, gets. fold c.
  rewrite (proj2 (String.eqb_neq _ _) Hty).
  unfold _get_attribute.
  assert (Hcomputed :
    _get_attribute_computed E (get_attribute E fuel) fuel n c nm (Some vs)
      "__getattribute__" st0 = Done st3 (n3, Some r)).
  { unfold _get_attribute_computed. unfold bind at 1, gets. rewrite Hassert. simpl.
    unfold bind at 1, ret. unfold bind at 1, gets. rewrite Hmod, Hcomp. simpl.
    rewrite (bind_Done _ _ _ _ _ Hlook). unfold bind at 1, gets.
    destruct (bindings st1 hook) eqn:Hbs; [done|].
    unfold bind at 1, ext. rewrite Hname. unfold bind at 1. by rewrite Hcall. }
  rewrite (bind_Done _ _ _ _ _ Hcomputed). simpl.
  unfold bind at 1, ret. unfold bind at 1, gets. unfold bind at 1, ret.
  unfold bind at 1, ret. unfold bind at 1, gets. done.
Qed.

Lemma lookup_mro_loop_first_found rec fuel c nm valself skip ret_var
    n st pre n1 st1 base n2 found st2 post :
  passes_over E rec fuel nm valself skip n st pre n1 st1 →
  base ∉ skip →
  lookup_in_base E rec fuel n1 base nm valself st1 = Done st2 (n2, found) →
  found ≠ [] →
  lookup_mro_loop E rec fuel c nm valself skip ret_var n (pre ++ base :: post) st
  = (let* _ := foldM (lookup_bind_value E c base valself ret_var) n2 found in
     ret tt) st2.
Proof.
  intros Hpass Hskip Hfound Hne.
  induction Hpass as [n st|n st b rest n' st' Hin _ IH
                      |n st b rest n1' st1' n' st' Hnin Hl _ IH]; simpl.
  - rewrite bool_decide_eq_false_2 by done.
    rewrite (bind_Done _ _ _ _ _ Hfound). simpl. by destruct found.
  - rewrite bool_decide_eq_true_2 by done. by apply IH.
  - rewrite bool_decide_eq_false_2 by done.
    rewrite (bind_Done _ _ _ _ _ Hl). simpl. by apply IH.
Qed.

(** C2 (amended).  The MRO walk stops at the first class, outside the skip
    set, on which the name is found with at least one binding (visible at
    the node, for a member): the classes before it are passed over, and the
    result is made of the bindings found on it alone, so that replacing the
    classes that come later in the MRO changes nothing. *)
Theorem lookup_from_mro_stops_at_first_found rec fuel st n c nm valself skip
    pre base post n1 st1 n2 found st2 :
  let ret_var := length (vars st) in
  let st0 := with_vars (vars st ++ [[]]) st in
  isinstance_any (value_of st c) [Unknown; Unsolvable] = false →
  mro (value_of st c) = pre ++ base :: post →
  passes_over E rec fuel nm valself skip n st0 pre n1 st1 →
  base ∉ skip →
  lookup_in_base E rec fuel n1 base nm valself st1 = Done st2 (n2, found) →
  found ≠ [] →
  _lookup_from_mro E rec fuel n c nm valself skip st
  = (let* _ := foldM (lookup_bind_value E c base valself ret_var) n2 found in
     ret ret_var) st2
  ∧ ∀ later,
      lookup_mro_loop E rec fuel c nm valself skip ret_var n (pre ++ base :: later) st0
      = lookup_mro_loop E rec fuel c nm valself skip ret_var n (pre ++ base :: post) st0.
Proof.
  intros ret_var st0 Hamb Hmro Hpass Hskip Hfound Hne. split.
  - unfold _lookup_from_mro. unfold bind at 1, gets. rewrite Hamb.
    unfold bind at 1, NewVariable. fold st0. fold ret_var. rewrite Hmro.
    unfold bind at 1.
    rewrite (lookup_mro_loop_first_found _ _ _ _ _ _ _ _ _ _ _ _ _ _ _ _ _
               Hpass Hskip Hfound Hne).
    unfold bind. by destruct (foldM _ _ _ _).
  - intros later.
    by rewrite !(lookup_mro_loop_first_found _ _ _ _ _ _ _ _ _ _ _ _ _ _ _ _ _
                   Hpass Hskip Hfound Hne).
Qed.

Lemma type_parameter_loop_collects rec n nm valself st bs rs ns st' rs' ns' rest :
  collects E rec n nm valself st bs rs ns st' rs' ns' →
  type_parameter_loop E rec n nm valself rs ns (bs ++ rest) st
  = type_parameter_loop E rec n nm valself rs' ns' rest st'.
Proof.
  induction 1 as [|st b bs rs ns st1 node2 attr st' rs' ns' Hrec _ IH
                  |st b bs rs ns st1 node2 st' rs' ns' Hrec Hvis _ IH]; [done| |].
  - simpl. unfold bind at 1, gets. rewrite (bind_Done _ _ _ _ _ Hrec). simpl.
    apply IH.
  - simpl. unfold bind at 1, gets. rewrite (bind_Done _ _ _ _ _ Hrec). simpl.
    unfold bind at 1, gets. rewrite Hvis. apply IH.
Qed.

(** C6 (amended).  Reading a type parameter instance (whose
    special-attribute hook does not answer).  The alternatives are the
    bindings of the owning instance's variable for the parameter or, when
    that variable has none, of the instantiated parameter.  (1) If the
    alternatives before some alternative each either have the attribute or
    lack it while hidden, and that alternative is visible at the node and
    lacks it, the lookup returns None at the node it was given; (2) if no
    alternative fails visibly and at least one has the attribute (visible
    or not), the nodes of the successful lookups are joined and their
    results joined at that node; (3) if every alternative is hidden and
    lacks the attribute (or there is no alternative), a fresh variable that
    binds the unsolvable value at the node is returned. *)
Theorem type_parameter_instance_lookup fuel st n obj nm valself st0 :
  let rec := get_attribute E fuel in
  let lookup := get_attribute E (S fuel) n obj nm valself st in
  let o := value_of st0 obj in
  let owned := get_instance_type_parameter E (instance o) (name o) st0 in
  let alternatives :=
    match bindings owned.2 owned.1 with
    | [] => instantiate E (param o) (root_node E) owned.2
    | _ => owned
    end in
  let pv := alternatives.1 in
  let st1 := alternatives.2 in
  get_special_attribute E obj n nm valself st = (None, st0) →
  read_branch o = RTypeParameterInstance →
  (∀ pre b post st2 rs ns st3 n2,
     binding_refs st1 pv = pre ++ b :: post →
     collects E rec n nm valself st1 pre [] [] st2 rs ns →
     rec n (bdata st2 b) nm valself st2 = Done st3 (n2, None) →
     IsVisible E st3 b n = true →
     lookup = Done st3 (n, None))
  ∧ (∀ st2 rs ns j st3 v st4,
       collects E rec n nm valself st1 (binding_refs st1 pv) [] [] st2 rs ns →
       ns ≠ [] →
       join_cfg_nodes E ns st2 = (j, st3) →
       join_variables E j rs st3 = (v, st4) →
       lookup = Done st4 (j, Some v))
  ∧ (∀ st2,
       collects E rec n nm valself st1 (binding_refs st1 pv) [] [] st2 [] [] →
       ∃ st3, lookup = Done st3 (n, Some (length (vars st2)))
              ∧ objs st3 = objs st2
              ∧ bindings st3 (length (vars st2))
                = [{| data := unsolvable E;
                      origins := [{| where_ := n; source_set := [] |}] |}]).
Proof.
  intros rec lookup o owned alternatives pv st1 Hs Hb.
  assert (Hpv : type_parameter_var E o st0 = Done st1 pv).
  { unfold type_parameter_var. unfold bind at 1, ext. fold owned.
    unfold st1, pv, alternatives.
    destruct owned as [pv0 s0]. unfold bind at 1, gets. simpl.
    destruct (bindings s0 pv0); [|done].
    unfold ext. by destruct (instantiate E (param o) (root_node E) s0). }
  assert (Hstep : lookup = type_parameter_loop E rec n nm valself [] []
                             (binding_refs st1 pv) st1).
  { unfold lookup. simpl. unfold get_attribute_body. unfold bind at 1, ext.
    rewrite Hs. unfold bind at 1, gets. fold o. rewrite Hb.
    rewrite (bind_Done _ _ _ _ _ Hpv). unfold bind at 1, gets. done. }
  clearbody pv st1. clear Hpv alternatives owned.
  split_and!.
  - intros pre b post st2 rs ns st3 n2 Hrefs Hcol Hrec Hvis.
    rewrite Hstep, Hrefs, (type_parameter_loop_collects _ _ _ _ _ _ _ _ _ _ _ _ Hcol).
    simpl. unfold bind at 1, gets. rewrite (bind_Done _ _ _ _ _ Hrec). simpl.
    unfold bind at 1, gets. by rewrite Hvis.
  - intros st2 rs ns j st3 v st4 Hcol Hne Hj Hv.
    rewrite Hstep. rewrite <- (app_nil_r (binding_refs st1 pv)).
    rewrite (type_parameter_loop_collects _ _ _ _ _ _ _ _ _ _ _ _ Hcol). simpl.
    destruct ns as [|n0 ns]; [done|].
    unfold bind at 1, ext. rewrite Hj. unfold bind at 1. by rewrite Hv.
  - intros st2 Hcol.
    rewrite Hstep. rewrite <- (app_nil_r (binding_refs st1 pv)).
    rewrite (type_parameter_loop_collects _ _ _ _ _ _ _ _ _ _ _ _ Hcol). simpl.
    eexists. split; [reflexivity|]. split; [done|].
    unfold bindings; simpl.
    rewrite list_lookup_insert_eq by (rewrite length_app; simpl; lia).
    unfold bindings. cbn [vars with_vars].
    rewrite lookup_app_r by done. by rewrite Nat.sub_diag.
Qed.

End Properties.

(** * Runs on the concrete stores *)

Lemma set_attribute_not_writable_witness :
  ∃ st', set_attribute Demo.env 1 1 9 "b" 0 Demo.slotted = Done st' 1
         ∧ errorlog st' = errorlog Demo.slotted ++ [(9, "b")]
         ∧ objs st' = objs Demo.slotted ∧ vars st' = vars Demo.slotted
         ∧ members_of st' 9 = members_of Demo.slotted 9.
Proof.
  apply (set_attribute_not_writable Demo.env 0 Demo.slotted 1 9 "b" 0).
  - vm_compute. discriminate.
  - intros b Hb Hn.
    change (b ∈ [8; 0]) in Hb. apply elem_of_cons in Hb as [->|Hb].
    + split; [reflexivity|]. split; [reflexivity|].
      exists ["a"]. split; [reflexivity|]. by intros [=]%list_elem_of_singleton.
    + apply list_elem_of_singleton in Hb as ->. exfalso. by apply Hn.
Defined.




Lemma set_attribute_function_defaults_witness :
  ∃ st', set_attribute Demo.env 1 1 9 "__defaults__" 0 Demo.with_function = Done st' 1
         ∧ (∀ x, members_of st' x = members_of Demo.with_function x)
         ∧ (_check_writable Demo.env 9 "__defaults__" Demo.with_function
            = Done Demo.with_function true →
            ∃ st1, update_official_names Demo.env 9 "__defaults__" 0 Demo.with_function
                   = Done st1 tt
                   ∧ st' = (set_function_defaults Demo.env 9 1 0 st1).2).
Proof.
  apply (set_attribute_function_defaults Demo.env 0 Demo.with_function 1 9 0).
  - reflexivity.
  - reflexivity.
  - reflexivity.
  - intros s x. reflexivity.
Defined.



Lemma filter_var_returns_same_variable_witness :
  let st := Demo.store [] [[Demo.bound_at 6 0]] in
  _filter_var Demo.env 0 0 0 st = Done st (Some 0)
  ∧ ∀ fuel', (let* once := _filter_var Demo.env 0 0 0 in
              match once with
              | Some var' => _filter_var Demo.env fuel' 0 var'
              | None => ret None
              end) st = Done st (Some 0).
Proof.
  apply (filter_var_returns_same_variable Demo.env 0
           (Demo.store [] [[Demo.bound_at 6 0]]) 0 0).
  - vm_compute. discriminate.
  - intros b Hb. change (b ∈ [(0, 0)]) in Hb.
    apply list_elem_of_singleton in Hb as ->. reflexivity.
  - intros b Hb. change (b ∈ [(0, 0)]) in Hb.
    apply list_elem_of_singleton in Hb as ->. reflexivity.
Defined.

(** A variable without bindings: all of its bindings are visible and none is
    a type parameter instance, yet filtering it returns None. *)
Lemma filter_var_empty_variable :
  ¬ ∀ fuel st n var,
      (∀ b, b ∈ binding_refs st var → IsVisible Demo.env st b n = true) →
      (∀ b, b ∈ binding_refs st var →
            isinstance (value_of st (bdata st b)) TypeParameterInstance = false) →
      _filter_var Demo.env fuel n var st = Done st (Some var).
Proof.
  intros H. specialize (H 0 (Demo.store [] [[]]) 0 0).
  assert (Hnone : ∀ b : bref, b ∈ binding_refs (Demo.store [] [[]]) 0 → False).
  { intros b Hb. change (b ∈ []) in Hb. by apply elem_of_nil in Hb. }
  specialize (H (λ b Hb, False_ind _ (Hnone b Hb)) (λ b Hb, False_ind _ (Hnone b Hb))).
  vm_compute in H. discriminate H.
Qed.



Lemma getattribute_hook_wins_witness :
  Demo.outcome (get_attribute Demo.env 5 0 9 "x" (Some (3, 0)) Demo.hooked)
  = Some (0, Some 7).
Proof.
  eassert (H : get_attribute Demo.env 5 0 9 "x" (Some (3, 0)) Demo.hooked = _).
  { eapply (getattribute_hook_wins Demo.env 4 Demo.hooked 0 9 "x" (3, 0)).
    - reflexivity.
    - reflexivity.
    - discriminate.
    - reflexivity.
    - reflexivity.
    - reflexivity.
    - reflexivity.
    - vm_compute. discriminate.
    - reflexivity.
    - reflexivity. }
  rewrite H. reflexivity.
Defined.

(** The class of the instance defines [__getattribute__].  In the first
    store, the read of [__x__] returns the variable stored on the instance
    and calls nothing, whereas the read of [x] returns what the hook
    returned.  In the second store the hook's only binding originates at
    node 5: the read of [x] at node 1 returns the variable stored on the
    instance, and nothing is called. *)
Lemma hook_is_bypassed :
  let st := Demo.hooked in
  let run := get_attribute Demo.env 5 0 9 "__x__" (Some (3, 0)) st in
  let st_l := Cases.hooked_late in
  let run_l := get_attribute Demo.env 5 1 9 "x" (Some (3, 0)) st_l in
  (cls (value_of st 9) = 8
   ∧ mro (value_of st 8) = [8; Demo.OBJECT]
   ∧ members_of st 8 !! "__getattribute__" = Some 0
   ∧ var_data st 0 = [10]
   ∧ bdata st (3, 0) = 9
   ∧ members_of st 9 !! "__x__" = Some 2
   ∧ Demo.outcome run = Some (0, Some 2)
   ∧ vars <$> Demo.final run = Some (vars st)
   ∧ Demo.outcome (get_attribute Demo.env 5 0 9 "x" (Some (3, 0)) st)
     = Some (0, Some 7))
  ∧ (cls (value_of st_l 9) = 8
     ∧ mro (value_of st_l 8) = [8; Demo.OBJECT]
     ∧ members_of st_l 8 !! "__getattribute__" = Some 0
     ∧ var_data st_l 0 = [10]
     ∧ Bindings Demo.env st_l 0 1 = []
     ∧ bdata st_l (3, 0) = 9
     ∧ _computable "x" = true
     ∧ members_of st_l 9 !! "x" = Some 1
     ∧ Demo.outcome run_l = Some (1, Some 1)
     ∧ (λ st', var_data st' 1) <$> Demo.final run_l = Some (var_data st_l 1)
     ∧ (λ st', var_data st' <$> [0; 2; 3; 4]) <$> Demo.final run_l
       = Some [[10]; [12]; [9]; []]).
Proof. vm_compute. repeat split. Qed.

Lemma lookup_from_mro_stops_at_first_found_witness :
  Demo.outcome (_lookup_from_mro Demo.env (get_attribute Demo.env 4) 4 1 8 "x"
                  None [] Demo.shadowed) = Some 2.
Proof.
  edestruct (lookup_from_mro_stops_at_first_found Demo.env
               (get_attribute Demo.env 4) 4 Demo.shadowed 1 8 "x" None []
               [8] 9 []) as [H _].
  - reflexivity.
  - reflexivity.
  - eapply passes_absent.
    + by intros ?%elem_of_nil.
    + reflexivity.
    + apply passes_none.
  - by intros ?%elem_of_nil.
  - reflexivity.
  - vm_compute. discriminate.
  - rewrite H. reflexivity.
Defined.

(** Class A comes first in the MRO, is not skipped and defines [x], with a
    binding that is not visible at node 1; the walk goes on and the result
    holds the value that B, later in the MRO, binds to [x]. *)
Lemma lookup_from_mro_later_class_contributes :
  let st := Demo.shadowed in
  let run := _lookup_from_mro Demo.env (get_attribute Demo.env 4) 4 1 8 "x" None [] st in
  mro (value_of st 8) = [8; 9]
  ∧ members_of st 8 !! "x" = Some 0
  ∧ var_data st 0 = [20]
  ∧ Bindings Demo.env st 0 1 = []
  ∧ members_of st 9 !! "x" = Some 1
  ∧ var_data st 1 = [21]
  ∧ Demo.outcome run = Some 2
  ∧ (λ st', var_data st' 2) <$> Demo.final run = Some [21].
Proof. vm_compute. repeat split. Qed.

Lemma type_parameter_instance_lookup_witness :
  Demo.outcome (get_attribute Demo.env 5 0 9 "x" None
                  (Demo.with_type_parameter [Demo.bound_at 11 0]))
  = Some (0, None)
  ∧ Demo.outcome (get_attribute Demo.env 5 0 9 "x" None
                    (Demo.with_type_parameter
                       [Demo.bound_at 10 0; Demo.bound_at 11 5]))
    = Some (0, Some 3)
  ∧ Demo.outcome (get_attribute Demo.env 5 0 9 "x" None
                    (Demo.with_type_parameter [Demo.bound_at 11 5]))
    = Some (0, Some 3).
Proof.
  split_and!.
  - edestruct (type_parameter_instance_lookup Demo.env 4
                 (Demo.with_type_parameter [Demo.bound_at 11 0]) 0 9 "x" None)
      as (H & _ & _); [reflexivity..|].
    erewrite (H [] (0, 0) []); [reflexivity|reflexivity|apply collects_done
                               |vm_compute; reflexivity|reflexivity].
  - edestruct (type_parameter_instance_lookup Demo.env 4
                 (Demo.with_type_parameter [Demo.bound_at 10 0; Demo.bound_at 11 5])
                 0 9 "x" None)
      as (_ & H & _); [reflexivity..|].
    eassert (Hrun : get_attribute Demo.env 5 0 9 "x" None _ = _).
    { eapply H.
      - eapply collects_found; [vm_compute; reflexivity|].
        eapply collects_hidden; [vm_compute; reflexivity|reflexivity|].
        apply collects_done.
      - discriminate.
      - reflexivity.
      - reflexivity. }
    rewrite Hrun. reflexivity.
  - edestruct (type_parameter_instance_lookup Demo.env 4
                 (Demo.with_type_parameter [Demo.bound_at 11 5]) 0 9 "x" None)
      as (_ & _ & H); [reflexivity..|].
    edestruct H as (st3 & -> & _).
    + eapply collects_hidden; [vm_compute; reflexivity|reflexivity|].
      apply collects_done.
    + reflexivity.
Defined.

(** The only alternative of the parameter (value 10) is bound at node 5, so
    it is not visible at node 0, and it stores [x] (variable 1): no
    alternative is reachable from the node of the read, yet the read returns
    the join of that alternative's attribute (the value 30), not a variable
    that binds the unsolvable value. *)
Lemma hidden_alternative_is_joined :
  let st := Demo.with_type_parameter [Demo.bound_at 10 5] in
  let run := get_attribute Demo.env 5 0 9 "x" None st in
  read_branch (value_of st 9) = RTypeParameterInstance
  ∧ instance (value_of st 9) = 8
  ∧ members_of st 8 !! name (value_of st 9) = Some 0
  ∧ var_data st 0 = [10]
  ∧ Bindings Demo.env st 0 0 = []
  ∧ members_of st 10 !! "x" = Some 1
  ∧ var_data st 1 = [30]
  ∧ Demo.outcome run = Some (0, Some 2)
  ∧ (λ st', var_data st' 2) <$> Demo.final run = Some [30]
  ∧ unsolvable Demo.env ≠ 30.
Proof. vm_compute. repeat split. discriminate. Qed.

(** * Further properties of the handler and of the attrs overlay *)

Section Further.

Variable E : Env.

Lemma bind_Done_inv {A B} (c : M A) (k : A → M B) st st' b :
  bind c k st = Done st' b → ∃ st1 a, c st = Done st1 a ∧ k a st1 = Done st' b.
Proof. unfold bind. destruct (c st) as [st1 a| |]; [eauto|done..]. Qed.

Lemma check_writable_mro_cons st nm b rest :
  check_writable_mro E st nm (b :: rest)
  = if String.eqb (full_name (value_of st b)) "builtins.object"
    then check_writable_mro E st nm rest
    else grants_write E st nm b || check_writable_mro E st nm rest.
Proof.
  simpl. unfold grants_write.
  destruct (String.eqb _ _); [done|].
  destruct (isinstance _ _ && _); [done|]. simpl.
  by destruct (match slots (value_of st b) with None => true | Some s => _ end).
Qed.

Lemma check_writable_mro_spec st nm bases :
  check_writable_mro E st nm bases = true
  ↔ ∃ b, b ∈ bases ∧ full_name (value_of st b) ≠ "builtins.object"
         ∧ grants_write E st nm b = true.
Proof.
  induction bases as [|b rest IH].
  - split; [done|]. by intros (b & ?%elem_of_nil & _).
  - rewrite check_writable_mro_cons.
    destruct (String.eqb_spec (full_name (value_of st b)) "builtins.object") as [Heq|Hne].
    + rewrite IH. split.
      * intros (b' & Hin & H). exists b'. split; [by right|done].
      * intros (b' & Hin & Hn & Hg). apply elem_of_cons in Hin as [->|Hin]; [done|].
        by exists b'.
    + rewrite orb_true_iff, IH. split.
      * intros [Hg|(b' & Hin & H)].
        -- exists b. split; [left|done].
        -- exists b'. split; [by right|done].
      * intros (b' & Hin & Hn & Hg). apply elem_of_cons in Hin as [->|Hin].
        -- by left.
        -- right. by exists b'.
Qed.

(** X1.  [_check_writable] accepts a write exactly when the MRO of the
    object's class is empty or some class of it other than builtins.object
    grants the name (it is a SimpleValue that contains [__setattr__] or the
    name, or its slots are unrestricted or list the name); it then leaves the
    state alone.  Otherwise it logs one not-writable error for the object and
    the name and returns False. *)
Theorem check_writable_exactly obj nm st :
  let bases := mro (value_of st (cls (value_of st obj))) in
  let writable :=
    bases = []
    ∨ ∃ b, b ∈ bases ∧ full_name (value_of st b) ≠ "builtins.object"
           ∧ grants_write E st nm b = true in
  (writable → _check_writable E obj nm st = Done st true)
  ∧ (¬ writable →
     _check_writable E obj nm st
     = Done (with_errorlog (errorlog st ++ [(obj, nm)]) st) false).
Proof.
  intros bases writable. unfold _check_writable. fold bases.
  destruct bases as [|b rest] eqn:Hb.
  - split; [done|]. intros H. destruct H. by left.
  - pose proof (check_writable_mro_spec st nm (b :: rest)) as Hs.
    destruct (check_writable_mro E st nm (b :: rest)).
    + split; [done|]. intros H. destruct H. right. by apply Hs.
    + split; [|done]. intros [H|H]; [done|]. by apply Hs in H.
Qed.

(** X2.  [_get_attribute_computed] does not look for the hook at all, and
    returns the node it was given with no attribute and the state unchanged,
    when there is no self binding, when the self binding's value is a module,
    or when the name both starts and ends with two underscores. *)
Theorem get_attribute_computed_not_attempted rec fuel n c nm valself hook st :
  isinstance (value_of st c) Class
    || isinstance_any (value_of st c) AMBIGUOUS_OR_EMPTY = true →
  valself = None
  ∨ (∃ vs, valself = Some vs ∧ isinstance (value_of st (bdata st vs)) Module = true)
  ∨ _computable nm = false →
  _get_attribute_computed E rec fuel n c nm valself hook st = Done st (n, None).
Proof.
  intros Ha Hno. unfold _get_attribute_computed.
  unfold bind at 1, gets. rewrite Ha. simpl. unfold bind at 1, ret.
  unfold bind at 1, gets.
  destruct Hno as [-> | [(vs & -> & Hm) | Hc]]; [done| |].
  - by rewrite Hm.
  - rewrite Hc. destruct valself; [by rewrite andb_false_r|done].
Qed.

Lemma rev_app_app s1 s2 acc :
  String.rev_app (s1 +:+ s2) acc = String.rev_app s2 (String.rev_app s1 acc).
Proof. revert acc. induction s1 as [|a s1 IH]; intros acc; simpl; [done|apply IH]. Qed.

Lemma string_prefix_empty s : String.prefix "" s = true.
Proof. by destruct s. Qed.

Lemma string_prefix_cons a s1 b s2 :
  String.prefix (String a s1) (String b s2)
  = if Ascii.ascii_dec a b then String.prefix s1 s2 else false.
Proof. reflexivity. Qed.

(** X3.  [_computable] rejects every name of the form [__s__] (also the
    empty [s]), and accepts every name that does not start with two
    underscores and every name whose last character is not an underscore. *)
Theorem computable_names :
  (∀ s, _computable ("__" +:+ s +:+ "__") = false)
  ∧ (∀ nm, String.prefix "__" nm = false → _computable nm = true)
  ∧ (∀ s c, c ≠ underscore → _computable (s +:+ String c "") = true).
Proof.
  split_and!.
  - intros s. unfold _computable, String.rev.
    rewrite !rev_app_app. simpl. by rewrite !string_prefix_empty.
  - intros nm H. unfold _computable. by rewrite H.
  - intros s c Hc. unfold _computable, String.rev. rewrite rev_app_app.
    cbn [String.rev_app]. rewrite string_prefix_cons.
    destruct (Ascii.ascii_dec _ c) as [Heq|_]; [by destruct Hc|].
    by rewrite andb_false_r.
Qed.

Lemma Bindings_subset st var n b :
  b ∈ Bindings E st var n → b ∈ binding_refs st var ∧ IsVisible E st b n = true.
Proof. unfold Bindings. intros H%list_elem_of_filter. tauto. Qed.

Lemma Bindings_nonempty_bindings st var n :
  Bindings E st var n ≠ [] → bindings st var ≠ [].
Proof.
  intros H Hb. apply H. unfold Bindings, binding_refs. by rewrite Hb.
Qed.

Lemma filter_var_nonempty fuel n var st st' v :
  _filter_var E fuel n var st = Done st' (Some v) → bindings st' v ≠ [].
Proof.
  unfold _filter_var. unfold bind at 1, gets.
  destruct (Bindings E st var n) as [|b bs] eqn:Hb; [done|].
  unfold bind at 1, gets. unfold bind at 1, gets.
  destruct (_ && _).
  - intros [= <- <-]. apply (Bindings_nonempty_bindings st var n). by rewrite Hb.
  - unfold bind at 1, NewVariable. intros H.
    apply bind_Done_inv in H as (st1 & [] & _ & H).
    unfold bind, gets in H.
    destruct (bindings st1 (length (vars st))) eqn:Hout; [done|].
    injection H as <- <-. by rewrite Hout.
Qed.

(** X4.  [_filter_var] returns None, without touching the state, for a
    variable none of whose bindings is visible at the node; and a variable it
    does return always has at least one binding. *)
Theorem filter_var_absent_or_nonempty fuel n var st :
  (Bindings E st var n = [] → _filter_var E fuel n var st = Done st None)
  ∧ ∀ st' v, _filter_var E fuel n var st = Done st' (Some v) →
             bindings st' v ≠ [].
Proof.
  split.
  - intros Hb. unfold _filter_var. unfold bind at 1, gets. by rewrite Hb.
  - intros st' v. apply filter_var_nonempty.
Qed.

(** X5.  An attribute that [_get_attribute] returns is never an empty
    variable: it has at least one binding in the resulting state. *)
Theorem get_attribute_found_is_nonempty rec fuel n obj c nm valself st st' n' a :
  _get_attribute E rec fuel n obj c nm valself st = Done st' (n', Some a) →
  bindings st' a ≠ [].
Proof.
  unfold _get_attribute. intros H.
  apply bind_Done_inv in H as (s1 & r1 & _ & H).
  apply bind_Done_inv in H as (s2 & r2 & _ & H).
  apply bind_Done_inv in H as (s3 & o3 & _ & H).
  apply bind_Done_inv in H as (s4 & r4 & _ & H).
  apply bind_Done_inv in H as (s5 & r5 & _ & H).
  apply bind_Done_inv in H as (s6 & o6 & _ & H).
  apply bind_Done_inv in H as (s7 & attr & _ & H).
  destruct attr as [a0|]; [|done].
  apply bind_Done_inv in H as (s8 & a8 & Hf & H).
  injection H as -> _ ->. by eapply filter_var_nonempty.
Qed.

(** X6.  [_get_member] never advances the node.  A variable it returns is
    the one stored under the name in the object's members and has a binding
    visible at the node; when it returns None, no variable stored under the
    name has a binding visible at the node. *)
Theorem get_member_found_is_visible n obj nm valself st st' n' r :
  _get_member E n obj nm valself st = Done st' (n', r) →
  n' = n
  ∧ match r with
    | Some v => members_of st' obj !! nm = Some v ∧ Bindings E st' v n ≠ []
    | None => ∀ v, members_of st' obj !! nm = Some v → Bindings E st' v n = []
    end.
Proof.
  unfold _get_member. intros H.
  apply bind_Done_inv in H as (s1 & o & _ & H).
  apply bind_Done_inv in H as (s2 & [] & _ & H).
  apply bind_Done_inv in H as (s3 & [] & _ & H).
  unfold bind, gets, ret in H. injection H as <- <- <-. split; [done|].
  destruct (members_of s3 obj !! nm) as [v|]; [|done].
  destruct (Bindings E s3 v n) eqn:Hb.
  - intros v' [= <-]. done.
  - split; [done|]. by rewrite Hb.
Qed.

Lemma bindings_new_variable st x :
  bindings (with_vars (vars st ++ [[]]) st) x = bindings st x.
Proof.
  unfold bindings; simpl.
  destruct (decide (x < length (vars st))) as [Hlt|Hge].
  - by rewrite lookup_app_l.
  - rewrite lookup_app_r by lia. rewrite (lookup_ge_None_2 (vars st)) by lia.
    by destruct (x - length (vars st)) as [|[|k]].
Qed.

Lemma filter_loop_plain v n st work extra fuel :
  v < length (vars st) →
  length work ≤ fuel →
  (∀ b, b ∈ work →
        is_Some (binding_at st b)
        ∧ isinstance (value_of st (bdata st b)) TypeParameterInstance = false) →
  filter_var_loop E fuel n v work
    (with_vars (<[v := bindings st v ++ extra]> (vars st)) st)
  = Done (with_vars
            (<[v := bindings st v ++ extra ++
                    ((λ b, {| data := bdata st b;
                              origins := [{| where_ := n; source_set := [b] |}] |})
                       <$> work)]> (vars st)) st) tt.
Proof.
  intros Hv. revert fuel extra.
  induction work as [|b work IH]; intros fuel extra Hfuel Hb.
  - destruct fuel; simpl; by rewrite app_nil_r.
  - destruct fuel as [|fuel]; [simpl in Hfuel; lia|].
    destruct (Hb b (list_elem_of_here _ _)) as [Hsome Htpi].
    assert (Hbd : bdata (with_vars (<[v := bindings st v ++ extra]> (vars st)) st) b
                  = bdata st b).
    { unfold bdata. by rewrite binding_at_insert_app. }
    cbn [filter_var_loop]. unfold bind at 1, gets. rewrite Hbd.
    unfold bind at 1, gets.
    change (value_of (with_vars ?x st) ?o) with (value_of st o).
    rewrite Htpi. unfold bind at 1, AddBinding at 1, append_binding.
    rewrite bindings_insert by done. rewrite decide_True by done.
    cbn [vars with_vars]. rewrite list_insert_insert_eq. rewrite <- app_assoc.
    change (with_vars ?x (with_vars ?y st)) with (with_vars x st).
    rewrite IH; [|simpl in Hfuel; lia|intros b' Hb'; apply Hb; by right].
    by rewrite <- app_assoc.
Qed.

(** X7.  When some but not all bindings of a variable are visible at the
    node and none of the visible ones holds a type parameter instance,
    [_filter_var] returns a fresh variable that holds exactly the values of
    the visible bindings, in order, each originating at the node with the
    binding it copies as its source; the given variable is left as it was. *)
Theorem filter_var_keeps_visible_values fuel n var st :
  let visible := Bindings E st var n in
  visible ≠ [] →
  length visible ≠ length (binding_refs st var) →
  (∀ b, b ∈ visible →
        isinstance (value_of st (bdata st b)) TypeParameterInstance = false) →
  length visible ≤ fuel →
  _filter_var E fuel n var st
  = Done (with_vars
            (vars st ++
             [(λ b, {| data := bdata st b;
                       origins := [{| where_ := n; source_set := [b] |}] |})
                <$> visible]) st)
         (Some (length (vars st))).
Proof.
  intros visible Hne Hlen Htpi Hfuel. unfold _filter_var.
  unfold bind at 1, gets. fold visible.
  destruct visible as [|b0 bs] eqn:Hvis; [done|]. rewrite <- Hvis in *.
  unfold bind at 1, gets. unfold bind at 1, gets.
  rewrite (proj2 (Nat.eqb_neq _ _) Hlen). simpl.
  unfold bind at 1, NewVariable.
  set (s0 := with_vars (vars st ++ [[]]) st).
  set (v := length (vars st)).
  assert (Hv : v < length (vars s0)).
  { unfold s0, v; simpl. rewrite length_app; simpl. lia. }
  pose proof (filter_loop_plain v n s0 visible [] fuel Hv Hfuel) as Hloop.
  assert (Hbv : bindings s0 v = []).
  { unfold s0. rewrite bindings_new_variable. unfold bindings, v.
    by rewrite lookup_ge_None_2. }
  rewrite Hbv in Hloop. simpl in Hloop.
  assert (Hid : <[v := []]> (vars st ++ [[]]) = vars st ++ [[]]).
  { apply list_insert_id. unfold v. rewrite lookup_app_r by done.
    by rewrite Nat.sub_diag. }
  rewrite Hid in Hloop.
  change (with_vars (vars st ++ [[]]) s0) with s0 in Hloop.
  assert (Hall : ∀ b, b ∈ visible →
            is_Some (binding_at s0 b)
            ∧ isinstance (value_of s0 (bdata s0 b)) TypeParameterInstance = false).
  { intros b Hb. unfold s0, bdata, binding_at.
    rewrite !bindings_new_variable. split.
    - destruct (Bindings_subset _ _ _ _ Hb) as [Hr _].
      by apply binding_refs_is_Some in Hr.
    - by apply Htpi. }
  specialize (Hloop Hall). rewrite (bind_Done _ _ _ _ _ Hloop); clear Hloop.
  unfold bind, gets.
  assert (Hfinal : <[v := (λ b, {| data := bdata s0 b;
                                    origins := [{| where_ := n; source_set := [b] |}] |})
                           <$> visible]> (vars st ++ [[]])
                   = vars st ++ [(λ b, {| data := bdata st b;
                                          origins := [{| where_ := n; source_set := [b] |}] |})
                                   <$> visible]).
  { unfold v. rewrite insert_app_r_alt by done. rewrite Nat.sub_diag. simpl.
    do 2 f_equal. apply list_fmap_ext. intros i b _.
    unfold s0, bdata, binding_at. by rewrite bindings_new_variable. }
  revert Hfinal.
  generalize (<[v := (λ b, {| data := bdata s0 b;
                              origins := [{| where_ := n; source_set := [b] |}] |})
                     <$> visible]> (vars st ++ [[]])).
  intros L ->.
  change (with_vars ?x s0) with (with_vars x st).
  unfold bindings at 1. cbn [vars with_vars].
  rewrite lookup_app_r by done. unfold v. rewrite Nat.sub_diag. simpl.
  clear -Hvis. clearbody visible. by subst visible.
Qed.

Lemma update_official_names_length obj nm value st st1 :
  update_official_names E obj nm value st = Done st1 tt →
  length (objs st1) = length (objs st).
Proof.
  unfold update_official_names, bind, gets. case_bool_decide as Hg.
  - generalize (var_data st value). intros d. clear Hg. revert st.
    induction d as [|v d IH]; intros st; simpl.
    + by intros [= <-].
    + unfold bind at 1. unfold update_official_name at 1, set_value, modify.
      intros H%IH. rewrite H. simpl. by rewrite length_insert.
  - by intros [= <-].
Qed.

Lemma maybe_load_bases_nothing n obj nm bases st :
  (∀ base s, convert_as_instance_attribute E base nm obj s = (None, s)) →
  maybe_load_bases E n obj nm bases st = Done st tt.
Proof.
  intros Hc. induction bases as [|base rest IH]; simpl; [done|].
  unfold bind at 1, gets. unfold bind at 1, gets.
  destruct (isinstance _ PyTDClass); [|done].
  unfold bind, ext. by rewrite Hc.
Qed.

Lemma maybe_load_nothing n obj nm st :
  isinstance (value_of st obj) SimpleValue = true →
  (∀ base s, convert_as_instance_attribute E base nm obj s = (None, s)) →
  _maybe_load_as_instance_attribute E n obj nm st = Done st tt.
Proof.
  intros Hs Hc. unfold _maybe_load_as_instance_attribute.
  unfold bind at 1, gets. rewrite Hs. simpl. unfold bind at 1, ret.
  unfold bind at 1, gets. destruct (negb _); [done|].
  by apply maybe_load_bases_nothing.
Qed.

Lemma pasted_new_variable st src n :
  pasted (with_vars (vars st ++ [[]]) st) src n = pasted st src n.
Proof.
  unfold pasted, binding_refs, bdata, binding_at.
  rewrite bindings_new_variable. apply list_fmap_ext. intros i b _.
  by rewrite bindings_new_variable.
Qed.

Lemma AssignToNewVariable_at src n st :
  AssignToNewVariable src (Some n) st
  = Done (with_vars (vars st ++ [pasted st src n]) st) (length (vars st)).
Proof.
  unfold AssignToNewVariable. unfold bind at 1, NewVariable.
  unfold bind at 1. rewrite PasteVariable_at.
  2:{ simpl. rewrite length_app. simpl. lia. }
  rewrite bindings_new_variable, pasted_new_variable.
  unfold bindings at 1. rewrite lookup_ge_None_2 by done. simpl.
  rewrite insert_app_r_alt by done. by rewrite Nat.sub_diag.
Qed.

Lemma first_write fuel st n obj nm value :
  write_branch (value_of st obj) = WSimpleValue →
  _check_writable E obj nm st = Done st true →
  nm ≠ "__class__" →
  isinstance_any (value_of st obj) [PyTDFunction; SignedFunction]
    && String.eqb nm "__defaults__" = false →
  isinstance (value_of st obj) LazyMembers = false →
  (isinstance (value_of st obj) Instance = true →
   ∀ base s, convert_as_instance_attribute E base nm obj s = (None, s)) →
  members_of st obj !! nm = None →
  ∃ st1, official_names_only st st1
         ∧ length (objs st1) = length (objs st)
         ∧ set_attribute E (S fuel) n obj nm value st
           = Done (with_objs
                     (<[obj := with_members
                                 (<[nm := length (vars st)]> (members (value_of st1 obj)))
                                 (value_of st1 obj)]> (objs st1))
                     (with_vars (vars st ++ [pasted st value n]) st1)) n.
Proof.
  intros Hb Hw Hcls Hdef Hlazy Hinst Hm. simpl.
  rewrite (bind_Done _ _ _ _ _ Hw). simpl. unfold set_attribute_dispatch.
  destruct (update_official_names_only E obj nm value st) as (st1 & Hu & Ho).
  exists st1. split; [done|]. split; [by eapply update_official_names_length|].
  rewrite (bind_Done _ _ _ _ _ Hu). unfold bind at 1, gets.
  pose proof (official_names_only_members _ _ obj Ho) as Hmem.
  pose proof Ho as (Hvars & _ & _ & _ & Hc). specialize (Hc obj).
  apply same_but_official_name_classes in Hc.
  rewrite (write_branch_classes _ _ Hc), Hb.
  unfold _set_member. unfold bind at 1, gets.
  rewrite (isinstance_classes _ _ _ Hc), Hlazy. unfold bind at 1, ret.
  rewrite (proj2 (String.eqb_neq _ _) Hcls).
  rewrite (isinstance_any_classes _ _ _ Hc), Hdef.
  unfold bind at 1, gets.
  assert (Hload : (if isinstance (value_of st1 obj) Instance
                      && bool_decide (nm ∉ dom (members_of st1 obj))
                   then _maybe_load_as_instance_attribute E (root_node E) obj nm
                   else ret tt) st1 = Done st1 tt).
  { destruct (isinstance (value_of st1 obj) Instance) eqn:Hi; [|done].
    destruct (bool_decide _); [|done]. simpl.
    apply maybe_load_nothing.
    - rewrite (isinstance_classes _ _ _ Hc). by apply write_branch_SimpleValue.
    - apply Hinst. by rewrite <- (isinstance_classes _ _ _ Hc). }
  rewrite (bind_Done _ _ _ _ _ Hload). unfold bind at 1, gets.
  rewrite Hmem, Hm. unfold bind at 1. rewrite AssignToNewVariable_at.
  rewrite <- Hvars, (vars_eq_pasted _ _ _ _ Hvars). rewrite Hvars. done.
Qed.

Lemma members_of_set_slot st sv obj nm v x :
  obj < length (objs st) →
  members_of (with_objs (<[obj := with_members (<[nm := v]> (members (value_of st obj)))
                                    (value_of st obj)]> (objs st)) sv) x
  = if decide (x = obj) then <[nm := v]> (members_of st obj) else members_of st x.
Proof.
  intros Hobj. unfold members_of, value_of at 1; simpl.
  destruct (decide (x = obj)) as [->|Hne].
  - by rewrite list_lookup_insert_eq.
  - by rewrite list_lookup_insert_ne.
Qed.

(** X8.  The first write of a name to a writable SimpleValue (a name other
    than [__class__], and other than [__defaults__] on a PyTDFunction or
    SignedFunction; no lazy members; nothing to load from the class) stores,
    under that name, one fresh variable that holds the written variable's
    values pasted at the node of the write; the other names of the object and
    the members of all other objects are unchanged, and the node is returned
    as given. *)
Theorem set_attribute_first_write fuel st n obj nm value :
  write_branch (value_of st obj) = WSimpleValue →
  _check_writable E obj nm st = Done st true →
  nm ≠ "__class__" →
  isinstance_any (value_of st obj) [PyTDFunction; SignedFunction]
    && String.eqb nm "__defaults__" = false →
  isinstance (value_of st obj) LazyMembers = false →
  (isinstance (value_of st obj) Instance = true →
   ∀ base s, convert_as_instance_attribute E base nm obj s = (None, s)) →
  members_of st obj !! nm = None →
  obj < length (objs st) →
  ∃ st', set_attribute E (S fuel) n obj nm value st = Done st' n
         ∧ vars st' = vars st ++ [pasted st value n]
         ∧ members_of st' obj = <[nm := length (vars st)]> (members_of st obj)
         ∧ ∀ x, x ≠ obj → members_of st' x = members_of st x.
Proof.
  intros Hb Hw Hcls Hdef Hlazy Hinst Hm Hobj.
  destruct (first_write fuel st n obj nm value Hb Hw Hcls Hdef Hlazy Hinst Hm)
    as (st1 & Ho & Hlen & Hrun).
  eexists. split; [exact Hrun|]. split; [done|].
  assert (Hobj1 : obj < length (objs st1)) by by rewrite Hlen.
  split.
  - rewrite (members_of_set_slot st1 _ obj nm _ obj Hobj1).
    rewrite decide_True by done. by rewrite (official_names_only_members _ _ _ Ho).
  - intros x Hx. rewrite (members_of_set_slot st1 _ obj nm _ x Hobj1).
    rewrite decide_False by done. by apply official_names_only_members.
Qed.

Lemma isinstance_with_members m v c :
  isinstance (with_members m v) c = isinstance v c.
Proof. done. Qed.

(** X9.  Write, then read: after the first write of a non-empty variable
    under a name (conditions as for X8), [_get_member] finds, at every node
    reachable from the node of the write, the variable that the write stored,
    without changing the state, and that variable holds the values of the
    written variable. *)
Theorem set_attribute_then_get_member fuel st n obj nm value :
  write_branch (value_of st obj) = WSimpleValue →
  _check_writable E obj nm st = Done st true →
  nm ≠ "__class__" →
  isinstance_any (value_of st obj) [PyTDFunction; SignedFunction]
    && String.eqb nm "__defaults__" = false →
  isinstance (value_of st obj) LazyMembers = false →
  (isinstance (value_of st obj) Instance = true →
   ∀ base s, convert_as_instance_attribute E base nm obj s = (None, s)) →
  members_of st obj !! nm = None →
  obj < length (objs st) →
  bindings st value ≠ [] →
  ∃ st', set_attribute E (S fuel) n obj nm value st = Done st' n
         ∧ ∀ n' valself,
             reachable E st' n n' = true →
             _get_member E n' obj nm valself st'
             = Done st' (n', Some (length (vars st)))
             ∧ var_data st' (length (vars st)) = var_data st value.
Proof.
  intros Hb Hw Hcls Hdef Hlazy Hinst Hm Hobj Hval.
  destruct (first_write fuel st n obj nm value Hb Hw Hcls Hdef Hlazy Hinst Hm)
    as (st1 & Ho & Hlen & Hrun).
  eexists. split; [exact Hrun|]. intros n' valself Hreach.
  assert (Hobj1 : obj < length (objs st1)) by by rewrite Hlen.
  set (st' := with_objs _ _) in *.
  pose proof Ho as (_ & _ & _ & _ & Hc). specialize (Hc obj).
  apply same_but_official_name_classes in Hc.
  assert (Hval' : value_of st' obj
                  = with_members (<[nm := length (vars st)]> (members (value_of st1 obj)))
                      (value_of st1 obj)).
  { unfold st', value_of at 1; simpl. by rewrite list_lookup_insert_eq. }
  assert (Hmem' : members_of st' obj !! nm = Some (length (vars st))).
  { unfold members_of. rewrite Hval'. simpl. by rewrite lookup_insert_eq. }
  assert (Hbind : bindings st' (length (vars st)) = pasted st value n).
  { unfold bindings, st'; simpl. rewrite lookup_app_r by done.
    by rewrite Nat.sub_diag. }
  assert (Hne : pasted st value n ≠ []).
  { unfold pasted. intros H%fmap_nil_inv. by apply binding_refs_nil in H. }
  split.
  - unfold _get_member. unfold bind at 1, gets. rewrite Hval'.
    rewrite isinstance_with_members, (isinstance_classes _ _ _ Hc), Hlazy.
    unfold bind at 1, ret. rewrite isinstance_with_members.
    assert (Hreload : (if isinstance (value_of st1 obj) Instance
                       then let* reload := gets (λ s,
                              match members_of s obj !! nm with
                              | None => true
                              | Some v => bool_decide (bindings s v = [])
                              end) in
                            if reload
                            then _maybe_load_as_instance_attribute E n' obj nm
                            else ret tt
                       else ret tt) st' = Done st' tt).
    { destruct (isinstance (value_of st1 obj) Instance); [|done].
      unfold bind, gets. rewrite Hmem', Hbind.
      by rewrite bool_decide_eq_false_2. }
    rewrite (bind_Done _ _ _ _ _ Hreload). unfold bind, gets, ret.
    rewrite Hmem'.
    assert (Hvis : Bindings E st' (length (vars st)) n' = binding_refs st' (length (vars st))).
    { apply Bindings_all_visible. intros b Hin.
      unfold IsVisible. destruct (binding_refs_is_Some _ _ _ Hin) as [bd Hbd].
      rewrite Hbd. simpl. apply (pasted_visible E st st' value n n' bd); [|done].
      rewrite <- Hbind. unfold binding_refs in Hin.
      apply list_elem_of_fmap in Hin as (i & -> & _). unfold binding_at in Hbd.
      simpl in Hbd. by eapply list_elem_of_lookup_2. }
    rewrite Hvis. destruct (binding_refs st' (length (vars st))) eqn:Hrefs; [|done].
    apply binding_refs_nil in Hrefs. by rewrite Hbind in Hrefs.
  - unfold var_data. rewrite Hbind. apply pasted_data.
Qed.

(** ** Growth of the store *)

Lemma store_grows_refl st : store_grows st st.
Proof. split; [done|]. intros v. done. Qed.

Lemma store_grows_trans st1 st2 st3 :
  store_grows st1 st2 → store_grows st2 st3 → store_grows st1 st3.
Proof.
  intros [Hm1 Hb1] [Hm2 Hb2]. split.
  - intros o k v H. by apply Hm2, Hm1.
  - intros v. etrans; [apply Hb1|apply Hb2].
Qed.

Lemma grows_ret {A} (a : A) : grows (ret a).
Proof. intros st st' a' [= <- _]. apply store_grows_refl. Qed.

Lemma grows_gets {A} (f : State → A) : grows (gets f).
Proof. intros st st' a' [= <- _]. apply store_grows_refl. Qed.

Lemma grows_raise {A} e : grows (@raise A e).
Proof. by intros st st' a'. Qed.

Lemma grows_assert b : grows (assert b).
Proof. destruct b; [apply grows_ret|apply grows_raise]. Qed.

Lemma grows_timeout {A} : grows (@timeout A).
Proof. by intros st st' a'. Qed.

Lemma grows_bind {A B} (c : M A) (k : A → M B) :
  grows c → (∀ a, grows (k a)) → grows (bind c k).
Proof.
  intros Hc Hk st st' b (s1 & a & H1 & H2)%bind_Done_inv.
  eapply store_grows_trans; [by eapply Hc|by eapply Hk].
Qed.

Lemma grows_foldM {A B} (f : B → A → M B) b xs :
  (∀ b a, grows (f b a)) → grows (foldM f b xs).
Proof.
  intros Hf. revert b. induction xs as [|x xs IH]; intros b; simpl.
  - apply grows_ret.
  - apply grows_bind; [apply Hf|apply IH].
Qed.

Lemma grows_ext {A} (f : Ext A) :
  (∀ st, store_grows st (f st).2) → grows (ext f).
Proof.
  intros Hf st st' a. unfold ext. specialize (Hf st).
  destruct (f st) as [a' s']. by intros [= <- _].
Qed.

Lemma store_grows_vars st L :
  (∀ v, bindings st v `prefix_of` bindings (with_vars L st) v) →
  store_grows st (with_vars L st).
Proof. intros H. by split. Qed.

Lemma grows_NewVariable : grows NewVariable.
Proof.
  intros st st' a [= <- _]. apply store_grows_vars. intros v.
  by rewrite bindings_new_variable.
Qed.

Lemma store_grows_append v b st : store_grows st (append_binding v b st).
Proof.
  apply store_grows_vars. intros x.
  destruct (decide (v < length (vars st))) as [Hv|Hv].
  - rewrite bindings_insert by done. destruct (decide (x = v)) as [->|]; [|done].
    by apply prefix_app_r.
  - change (with_vars ?L st) with (with_vars L st).
    rewrite list_insert_ge by lia. by rewrite with_vars_self.
Qed.

Lemma grows_AddBinding v d srcs n : grows (AddBinding v d srcs n).
Proof. intros st st' a [= <- _]. apply store_grows_append. Qed.

Lemma grows_PasteBinding v b w : grows (PasteBinding v b w).
Proof. intros st st' a [= <- _]. apply store_grows_append. Qed.

Lemma grows_PasteVariable v src w : grows (PasteVariable v src w).
Proof.
  unfold PasteVariable. apply grows_bind; [apply grows_gets|]. intros bs.
  apply grows_foldM. intros _ b. apply grows_PasteBinding.
Qed.

Lemma grows_AssignToNewVariable src w : grows (AssignToNewVariable src w).
Proof.
  unfold AssignToNewVariable. apply grows_bind; [apply grows_NewVariable|].
  intros v. apply grows_bind; [apply grows_PasteVariable|]. intros _.
  apply grows_ret.
Qed.

Lemma value_of_set_value st o f x :
  value_of (with_objs (<[o := f (value_of st o)]> (objs st)) st) x
  = if bool_decide (x = o ∧ o < length (objs st)) then f (value_of st o)
    else value_of st x.
Proof. apply value_of_insert. Qed.

Lemma grows_update_official_names obj nm value :
  grows (update_official_names E obj nm value).
Proof.
  intros st st' [] H.
  destruct (update_official_names_only E obj nm value st) as (st1 & Hu & Ho).
  rewrite Hu in H. injection H as <-. split.
  - intros o k v. by rewrite (official_names_only_members _ _ _ Ho).
  - intros v. destruct Ho as (Hv & _). by rewrite (vars_eq_bindings _ _ _ Hv).
Qed.

(** Storing a variable under a name that [st] did not hold loses nothing
    of [st]. *)
Lemma store_grows_set_fresh st s1 o nm var s2 :
  members_of st o !! nm = None →
  store_grows st s1 →
  set_member_slot o nm var s1 = Done s2 tt →
  store_grows st s2.
Proof.
  intros Hnone [Hm Hb] [= <-]. split.
  - intros o' k v H. unfold members_of. rewrite value_of_set_value.
    case_bool_decide as Hx.
    + destruct Hx as [-> _]. simpl.
      destruct (decide (k = nm)) as [->|Hk]; [congruence|].
      rewrite lookup_insert_ne by done. by apply Hm.
    + by apply Hm.
  - intros v. apply Hb.
Qed.

Lemma grows_check_writable obj nm : grows (_check_writable E obj nm).
Proof.
  intros st st' a H.
  destruct (check_writable_cases E obj nm st) as [Hc|Hc]; rewrite Hc in H;
    injection H as <- _; [apply store_grows_refl|]. by split.
Qed.

Section Growth.

Hypothesis Hext : write_collaborators_grow E.

Lemma grows_convert_member o nm s : grows (ext (convert_member E o nm s)).
Proof. apply grows_ext. intros st. apply Hext. Qed.

Lemma grows_convert_as_instance_attribute b nm o :
  grows (ext (convert_as_instance_attribute E b nm o)).
Proof. apply grows_ext. intros st. apply Hext. Qed.

Lemma grows_set_class o n v : grows (ext (set_class E o n v)).
Proof. apply grows_ext. intros st. apply Hext. Qed.

Lemma grows_set_function_defaults o n v :
  grows (ext (set_function_defaults E o n v)).
Proof. apply grows_ext. intros st. apply Hext. Qed.

Lemma grows_get_instance_type_parameter o nm :
  grows (ext (get_instance_type_parameter E o nm)).
Proof. apply grows_ext. intros st. apply Hext. Qed.

Lemma grows_join_cfg_nodes ns : grows (ext (join_cfg_nodes E ns)).
Proof. apply grows_ext. intros st. apply Hext. Qed.

Lemma grows_load_lazy_attribute o nm subst : grows (load_lazy_attribute E o nm subst).
Proof.
  intros st st' [] H. unfold load_lazy_attribute in H.
  unfold bind at 1, gets in H.
  destruct (bool_decide (nm ∉ dom (members (value_of st o)))) eqn:Hd; simpl in H.
  2:{ injection H as <-. apply store_grows_refl. }
  destruct (bool_decide _) in H.
  2:{ injection H as <-. apply store_grows_refl. }
  apply bind_Done_inv in H as (s1 & var & Hc & Hs).
  apply bool_decide_eq_true_1 in Hd.
  eapply store_grows_set_fresh; [|by eapply grows_convert_member|exact Hs].
  by apply not_elem_of_dom.
Qed.

Lemma grows_maybe_load_bases n obj nm bases : grows (maybe_load_bases E n obj nm bases).
Proof.
  induction bases as [|base rest IH]; simpl; [apply grows_ret|].
  apply grows_bind; [apply grows_gets|]. intros b.
  apply grows_bind; [apply grows_gets|]. intros b'.
  destruct (isinstance b' PyTDClass); [|done].
  intros st st' [] H.
  apply bind_Done_inv in H as (s1 & var & Hc & H).
  assert (Hg1 : store_grows st s1).
  { by eapply grows_convert_as_instance_attribute. }
  destruct var as [var|].
  - unfold bind at 1, gets in H.
    destruct (members_of s1 obj !! nm) as [old|] eqn:Hm.
    + eapply store_grows_trans; [done|]. by eapply grows_PasteVariable.
    + eapply store_grows_trans; [done|].
      eapply store_grows_set_fresh; [done|apply store_grows_refl|done].
  - eapply store_grows_trans; [done|]. by eapply IH.
Qed.

Lemma grows_maybe_load n obj nm :
  grows (_maybe_load_as_instance_attribute E n obj nm).
Proof.
  unfold _maybe_load_as_instance_attribute.
  apply grows_bind; [apply grows_gets|]. intros o.
  apply grows_bind; [apply grows_assert|]. intros _.
  apply grows_bind; [apply grows_gets|]. intros c.
  destruct (negb _); [apply grows_ret|apply grows_maybe_load_bases].
Qed.

Lemma grows_store_fresh obj nm value n st st' (a : nat) :
  members_of st obj !! nm = None →
  (let* variable := AssignToNewVariable value (Some n) in
   let* _ := set_member_slot obj nm variable in
   ret a) st = Done st' a →
  store_grows st st'.
Proof.
  intros Hm H.
  apply bind_Done_inv in H as (s1 & var & Ha & H).
  apply bind_Done_inv in H as (s2 & [] & Hs & H). injection H as <-.
  eapply store_grows_set_fresh; [done|by eapply grows_AssignToNewVariable|done].
Qed.

Lemma grows_set_member n obj nm var : grows (_set_member E n obj nm var).
Proof.
  unfold _set_member.
  apply grows_bind; [apply grows_gets|]. intros o.
  apply grows_bind.
  { destruct (isinstance o LazyMembers);
      [apply grows_load_lazy_attribute|apply grows_ret]. }
  intros _. destruct (String.eqb nm "__class__").
  { apply grows_set_class. }
  destruct (_ && _).
  { apply grows_bind; [apply grows_set_function_defaults|]. intros _. apply grows_ret. }
  apply grows_bind; [apply grows_gets|]. intros m.
  apply grows_bind.
  { destruct (_ && _); [apply grows_maybe_load|apply grows_ret]. }
  intros _ st st' a H. unfold bind at 1, gets in H.
  destruct (members_of st obj !! nm) as [variable|] eqn:Hm.
  - apply bind_Done_inv in H as (s1 & [] & Hp & H). injection H as <- _.
    by eapply grows_PasteVariable.
  - assert (a = n) as ->.
    { apply bind_Done_inv in H as (s1 & v1 & _ & H).
      apply bind_Done_inv in H as (s2 & [] & _ & H). by injection H. }
    by eapply grows_store_fresh.
Qed.

(** X10.  [set_attribute] loses nothing: provided the collaborators it calls
    lose nothing, every name stored in a member mapping before the write is
    still bound to the same variable afterwards, and the bindings of every
    variable after the write extend those before. *)
Theorem set_attribute_loses_nothing fuel n obj nm value st st' n' :
  set_attribute E fuel n obj nm value st = Done st' n' →
  store_grows st st'.
Proof.
  revert n obj st st' n'. induction fuel as [|fuel IH]; intros n obj; [done|].
  change (grows (set_attribute E (S fuel) n obj nm value)). simpl.
  apply grows_bind; [apply grows_check_writable|]. intros w.
  destruct (negb w); [apply grows_ret|].
  unfold set_attribute_dispatch.
  apply grows_bind; [apply grows_update_official_names|]. intros _.
  intros st st' n' H. unfold bind at 1, gets in H.
  destruct (write_branch (value_of st obj)) eqn:Hb.
  - injection H as <- _. apply store_grows_refl.
  - injection H as <- _. apply store_grows_refl.
  - by eapply IH.
  - by eapply grows_set_member.
  - by eapply IH.
  - injection H as <- _. apply store_grows_refl.
  - fold (members_of st obj) in H.
    destruct (members_of st obj !! nm) as [old|] eqn:Hm.
    + apply bind_Done_inv in H as (s1 & [] & Hp & H). injection H as <- _.
      by eapply grows_PasteVariable.
    + assert (n' = n) as ->.
      { apply bind_Done_inv in H as (s1 & v1 & _ & H).
        apply bind_Done_inv in H as (s2 & [] & _ & H). by injection H. }
      by eapply grows_store_fresh.
  - assert (Hg : ∀ o, grows (
      let* pv := ext (get_instance_type_parameter E (instance o) (name o)) in
      let* d := gets (λ s, var_data s pv) in
      let* nodes := foldM (λ acc v, let* n0 := set_attribute E fuel n v nm value in
                                    ret (acc ++ [n0])) [] d in
      match nodes with [] => ret n | _ => ext (join_cfg_nodes E nodes) end)).
    { intros o. apply grows_bind; [apply grows_get_instance_type_parameter|].
      intros pv. apply grows_bind; [apply grows_gets|]. intros d.
      apply grows_bind.
      - apply grows_foldM. intros acc v.
        apply grows_bind; [intros s s' a; apply IH|]. intros a. apply grows_ret.
      - intros [|x nodes]; [apply grows_ret|apply grows_join_cfg_nodes]. }
    by eapply Hg.
  - assert (Hg : ∀ o, grows (foldM (λ n0 option, set_attribute E fuel n0 option nm value)
                               n (options o))).
    { intros o. apply grows_foldM. intros n0 option s s' a. apply IH. }
    by eapply Hg.
  - done.
Qed.

End Growth.

(** X11.  The classes that [_get_attribute_from_super_instance] skips are a
    prefix of the starting class's MRO.  If a class of the MRO bears the full
    name of the current class, the prefix ends with the first such class; if
    none does, the whole MRO is skipped. *)
Theorem super_skip_up_to_current st current parents :
  super_skip st current parents `prefix_of` parents
  ∧ (∀ p, p ∈ parents → full_name (value_of st p) = current →
          ∃ q, last (super_skip st current parents) = Some q
               ∧ full_name (value_of st q) = current
               ∧ ∀ r, r ∈ removelast (super_skip st current parents) →
                      full_name (value_of st r) ≠ current)
  ∧ ((∀ p, p ∈ parents → full_name (value_of st p) ≠ current) →
     super_skip st current parents = parents).
Proof.
  induction parents as [|p rest (IH1 & IH2 & IH3)]; simpl.
  - split_and!; [done| |done]. by intros p ?%elem_of_nil.
  - destruct (String.eqb_spec (full_name (value_of st p)) current) as [Heq|Hne].
    + split_and!.
      * by exists rest.
      * intros _ _ _. exists p. split_and!; [done..|]. by intros r ?%elem_of_nil.
      * intros H. destruct (H p); [left|done].
    + split_and!.
      * by apply prefix_cons.
      * intros p' Hin Hp'. apply elem_of_cons in Hin as [->|Hin]; [done|].
        destruct (IH2 p' Hin Hp') as (q & Hlast & Hq & Hbefore).
        exists q. destruct (super_skip st current rest) as [|x l] eqn:Hs; [done|].
        split_and!; [done..|].
        intros r Hr. change (r ∈ p :: removelast (x :: l)) in Hr.
        apply elem_of_cons in Hr as [->|Hr]; [done|by apply Hbefore].
      * intros H. f_equal. apply IH3. intros p' Hp'. apply H. by right.
Qed.

Lemma lookup_mro_loop_all_skipped rec fuel c nm valself skip ret_var n bases st :
  (∀ b, b ∈ bases → b ∈ skip) →
  lookup_mro_loop E rec fuel c nm valself skip ret_var n bases st = Done st tt.
Proof.
  induction bases as [|b rest IH]; intros H; simpl; [done|].
  rewrite bool_decide_eq_true_2 by (apply H; left).
  apply IH. intros b' Hb'. apply H. by right.
Qed.

Lemma lookup_skipping_whole_mro rec fuel n c nm valself skip st :
  isinstance_any (value_of st c) [Unknown; Unsolvable] = false →
  (∀ b, b ∈ mro (value_of st c) → b ∈ skip) →
  _lookup_from_mro_and_handle_descriptors E rec fuel n c nm valself skip st
  = Done (with_vars (vars st ++ [[]]) st) (n, None).
Proof.
  intros Hamb Hall. unfold _lookup_from_mro_and_handle_descriptors, _lookup_from_mro.
  unfold bind at 2, gets. unfold bind at 1. rewrite Hamb.
  unfold bind at 1, NewVariable. unfold bind at 1.
  rewrite lookup_mro_loop_all_skipped by done. simpl.
  unfold bind, gets. unfold binding_refs. rewrite bindings_new_variable.
  unfold bindings. by rewrite lookup_ge_None_2.
Qed.

Lemma super_skip_app st current pre rest :
  (∀ p, p ∈ pre → full_name (value_of st p) ≠ current) →
  super_skip st current (pre ++ rest) = pre ++ super_skip st current rest.
Proof.
  induction pre as [|p pre IH]; intros H; simpl; [done|].
  rewrite (proj2 (String.eqb_neq _ _) (H p (list_elem_of_here _ _))).
  f_equal. apply IH. intros q Hq. apply H. by right.
Qed.

Lemma super_skip_last st current p : super_skip st current [p] = [p].
Proof. simpl. by destruct (String.eqb _ _). Qed.

(** X12.  A super instance of an ordinary instance (neither class is
    ambiguous, the instance's class is not of full name builtins.type, and
    the current class is not in the instance's own MRO) finds no attribute
    at all when no class before the last one of the instance's class's MRO
    bears the full name of the current class: the node is unchanged, the
    result is None and no value is changed, whatever the name. *)
Theorem super_from_last_class_finds_nothing rec fuel n obj nm valself st so pre last_cls :
  let o := value_of st obj in
  let sov := value_of st so in
  super_obj o = Some so →
  full_name (value_of st (cls sov)) ≠ "builtins.type" →
  isinstance_any (value_of st (cls sov)) AMBIGUOUS_OR_EMPTY = false →
  isinstance_any (value_of st (super_cls o)) AMBIGUOUS_OR_EMPTY = false →
  super_cls o ∉ mro sov →
  mro (value_of st (cls sov)) = pre ++ [last_cls] →
  (∀ p, p ∈ pre →
        full_name (value_of st p) ≠ full_name (value_of st (super_cls o))) →
  ∃ st', _get_attribute_from_super_instance E rec fuel n obj nm valself st
         = Done st' (n, None)
         ∧ objs st' = objs st.
Proof.
  intros o sov Hso Hty Hamb1 Hamb2 Hnin Hmro Hpre.
  unfold _get_attribute_from_super_instance. unfold bind at 1, gets. fold o.
  rewrite Hso. unfold bind at 1, gets. fold sov.
  rewrite (proj2 (String.eqb_neq _ _) Hty), Hamb1, Hamb2. simpl.
  rewrite bool_decide_eq_false_2 by done.
  unfold bind at 1, to_binding, to_variable, NewVariable.
  unfold bind at 1 2 3, AddBinding, ret. unfold bind at 1, gets.
  match goal with
  | |- context [_lookup_from_mro_and_handle_descriptors _ _ _ _ _ _ _ ?sk ?s] =>
      set (s1 := s); set (skip := sk)
  end.
  assert (Hobjs : ∀ x, value_of s1 x = value_of st x) by done.
  eexists. split.
  - apply lookup_skipping_whole_mro.
    + rewrite Hobjs. revert Hamb1. unfold AMBIGUOUS_OR_EMPTY, isinstance_any. simpl.
      rewrite !orb_false_r. intros H. apply orb_false_iff in H as [H1 H2].
      apply orb_false_iff in H2 as [H2 _]. by rewrite H1, H2.
    + intros b Hb. unfold skip. rewrite !Hobjs. fold o. rewrite Hmro.
      rewrite super_skip_app, super_skip_last by done.
      by rewrite Hobjs, Hmro in Hb.
  - done.
Qed.

Lemma descriptor_loop_direct rec v n c vs st work extra nodes :
  v < length (vars st) →
  is_Some (binding_at st vs) →
  bdata st vs = c →
  (∀ b, b ∈ work →
        is_Some (binding_at st b)
        ∧ isinstance (value_of st (bdata st b)) PropertyInstance = true) →
  foldM (handle_descriptor E rec n c (Some vs) v) nodes work
    (with_vars (<[v := bindings st v ++ extra]> (vars st)) st)
  = Done (with_vars
            (<[v := bindings st v ++ extra ++
                    ((λ b, {| data := bdata st b;
                              origins := [{| where_ := n; source_set := [b] |}] |})
                       <$> work)]> (vars st)) st)
         (nodes ++ replicate (length work) n).
Proof.
  intros Hv Hvs Hc. revert extra nodes.
  induction work as [|b work IH]; intros extra nodes Hb.
  - simpl. by rewrite !app_nil_r.
  - destruct (Hb b (list_elem_of_here _ _)) as [Hsome Hprop].
    assert (Hbd : ∀ x, is_Some (binding_at st x) →
              bdata (with_vars (<[v := bindings st v ++ extra]> (vars st)) st) x
              = bdata st x).
    { intros x Hx. unfold bdata. by rewrite binding_at_insert_app. }
    cbn [foldM]. unfold bind at 1. unfold handle_descriptor at 1.
    unfold bind at 1, gets. rewrite (Hbd b Hsome).
    unfold bind at 1, gets. rewrite (Hbd vs Hvs).
    change (value_of (with_vars ?x st) ?o) with (value_of st o).
    rewrite Hprop, Hc. rewrite bool_decide_eq_true_2 by done. simpl.
    unfold append_binding.
    rewrite bindings_insert by done. rewrite decide_True by done.
    cbn [vars with_vars]. rewrite list_insert_insert_eq. rewrite <- app_assoc.
    change (with_vars ?x (with_vars ?y st)) with (with_vars x st).
    rewrite IH by (intros b' Hb'; apply Hb; by right).
    by rewrite <- !app_assoc.
Qed.

(** X13.  When the MRO walk finds only PropertyInstance values for a name on
    an InterpreterClass and the self binding's value is that class itself,
    [_lookup_from_mro_and_handle_descriptors] looks up no [__get__] and calls
    nothing: it returns a fresh variable holding the values found, each
    originating at the node with the found binding as its source, and the
    join of as many copies of the node as there are bindings. *)
Theorem property_on_class_is_returned_uncalled rec fuel n c nm vs skip st st1 attr :
  _lookup_from_mro E rec fuel n c nm (Some vs) skip st = Done st1 attr →
  binding_refs st1 attr ≠ [] →
  isinstance (value_of st1 c) InterpreterClass = true →
  is_Some (binding_at st1 vs) →
  bdata st1 vs = c →
  (∀ b, b ∈ binding_refs st1 attr →
        isinstance (value_of st1 (bdata st1 b)) PropertyInstance = true) →
  let st2 := with_vars (vars st1 ++ [pasted st1 attr n]) st1 in
  let j := join_cfg_nodes E (replicate (length (binding_refs st1 attr)) n) st2 in
  _lookup_from_mro_and_handle_descriptors E rec fuel n c nm (Some vs) skip st
  = Done j.2 (j.1, Some (length (vars st1))).
Proof.
  intros Hlook Hne Hcls Hvs Hc Hprop st2 j.
  unfold _lookup_from_mro_and_handle_descriptors.
  rewrite (bind_Done _ _ _ _ _ Hlook). unfold bind at 1, gets.
  destruct (binding_refs st1 attr) as [|b0 bs] eqn:Hrefs; [done|].
  rewrite <- Hrefs in *. unfold bind at 1, gets. rewrite Hcls.
  unfold bind at 1, NewVariable.
  set (s0 := with_vars (vars st1 ++ [[]]) st1).
  set (v := length (vars st1)).
  assert (Hv : v < length (vars s0)).
  { unfold s0, v; simpl. rewrite length_app; simpl. lia. }
  assert (Hat : ∀ x, binding_at s0 x = binding_at st1 x).
  { intros x. unfold s0, binding_at. by rewrite bindings_new_variable. }
  assert (Hvs0 : is_Some (binding_at s0 vs)) by by rewrite Hat.
  assert (Hc0 : bdata s0 vs = c) by (unfold bdata; by rewrite Hat).
  assert (Hall : ∀ b, b ∈ binding_refs st1 attr →
            is_Some (binding_at s0 b)
            ∧ isinstance (value_of s0 (bdata s0 b)) PropertyInstance = true).
  { intros b Hb. split.
    - rewrite Hat. by eapply binding_refs_is_Some.
    - unfold bdata. rewrite Hat. by apply Hprop. }
  pose proof (descriptor_loop_direct rec v n c vs s0 (binding_refs st1 attr) [] []
                Hv Hvs0 Hc0 Hall) as Hloop.
  assert (Hbv : bindings s0 v = []).
  { unfold s0. rewrite bindings_new_variable. unfold bindings, v.
    by rewrite lookup_ge_None_2. }
  rewrite Hbv in Hloop. simpl in Hloop.
  assert (Hid : <[v := []]> (vars st1 ++ [[]]) = vars st1 ++ [[]]).
  { apply list_insert_id. unfold v. rewrite lookup_app_r by done.
    by rewrite Nat.sub_diag. }
  rewrite Hid in Hloop.
  change (with_vars (vars st1 ++ [[]]) s0) with s0 in Hloop.
  assert (Hfinal : with_vars
            (<[v := (λ b, {| data := bdata s0 b;
                             origins := [{| where_ := n; source_set := [b] |}] |})
                      <$> binding_refs st1 attr]> (vars st1 ++ [[]])) s0 = st2).
  { unfold st2, pasted, v. change (with_vars ?x s0) with (with_vars x st1). f_equal.
    rewrite insert_app_r_alt by done. rewrite Nat.sub_diag. simpl.
    do 2 f_equal. apply list_fmap_ext. intros i b _.
    unfold bdata. by rewrite Hat. }
  rewrite Hfinal in Hloop.
  unfold bind at 1. rewrite Hloop.
  subst j. rewrite Hrefs. cbn [length replicate].
  unfold bind, ext, ret.
  by destruct (join_cfg_nodes E (n :: replicate (length bs) n) st2).
Qed.

(** X14.  A write to an Empty value, to a Module, or to an Unsolvable value
    that is none of the earlier cases is ignored: [set_attribute] returns the
    node it was given and leaves every variable and every member mapping as
    it was. *)
Theorem set_attribute_ignored_targets fuel st n obj nm value :
  write_branch (value_of st obj) ∈ [WEmpty; WModule; WUnsolvable] →
  ∃ st', set_attribute E (S fuel) n obj nm value st = Done st' n
         ∧ vars st' = vars st
         ∧ ∀ x, members_of st' x = members_of st x.
Proof.
  intros Hb. simpl. unfold bind at 1.
  destruct (check_writable_cases E obj nm st) as [Hw | Hw]; rewrite Hw; simpl.
  2:{ by eexists. }
  unfold set_attribute_dispatch.
  destruct (update_official_names_only E obj nm value st) as (st1 & Hu & Ho).
  rewrite (bind_Done _ _ _ _ _ Hu). unfold bind at 1, gets.
  pose proof Ho as (Hv & _ & _ & _ & Hc). specialize (Hc obj).
  apply same_but_official_name_classes in Hc.
  rewrite (write_branch_classes _ _ Hc).
  assert (Hdone : ∀ r : M nat, r = ret n →
            ∃ st', r st1 = Done st' n ∧ vars st' = vars st
                   ∧ ∀ x, members_of st' x = members_of st x).
  { intros r ->. exists st1. split; [done|]. split; [done|].
    intros x. by apply official_names_only_members. }
  repeat (apply elem_of_cons in Hb as [->|Hb]); [by apply Hdone..|].
  by apply elem_of_nil in Hb.
Qed.

(** X15.  When the instance lookup on a module finds nothing,
    [_get_module_attribute] returns what [get_submodule] returns for the
    name, at the node where the instance lookup ended. *)
Theorem module_attribute_falls_back_to_submodule rec fuel n module nm valself
    st st1 n1 sub st2 :
  isinstance (value_of st module) Module = true →
  _get_instance_attribute E rec fuel n module nm valself st = Done st1 (n1, None) →
  get_submodule E module n1 nm st1 = (sub, st2) →
  _get_module_attribute E rec fuel n module nm valself st = Done st2 (n1, sub).
Proof.
  intros Hm Hi Hs. unfold _get_module_attribute. unfold bind at 1, gets.
  rewrite Hm. simpl. unfold bind at 1, ret.
  rewrite (bind_Done _ _ _ _ _ Hi). simpl. unfold bind at 1, ret. simpl.
  unfold bind, ext. rewrite Hs. by destruct sub.
Qed.

(** X16.  For a class that is Unknown or Unsolvable, with a self binding
    whose value is not a module and a name that is not of the form [__x__],
    [_get_attribute_computed] always calls the hook: it binds the unsolvable
    value at the node in a fresh variable, calls that variable with the name
    as the only argument, and returns the node and the variable of the call,
    so the attribute is never None. *)
Theorem computed_on_unknown_class_calls_hook rec fuel n c nm vs hook st :
  isinstance_any (value_of st c) [Unknown; Unsolvable] = true →
  isinstance (value_of st (bdata st vs)) Module = false →
  _computable nm = true →
  let u := length (vars st) in
  let st1 := with_vars
               (vars st ++ [[{| data := unsolvable E;
                                origins := [{| where_ := n; source_set := [] |}] |}]])
               st in
  let name_var := constant_to_var E nm n st1 in
  let called := call_function E n u [name_var.1] name_var.2 in
  _get_attribute_computed E rec fuel n c nm (Some vs) hook st
  = Done called.2 (called.1.1, Some called.1.2).
Proof.
  intros Hamb Hmod Hcomp u st1 name_var called.
  unfold _get_attribute_computed. unfold bind at 1, gets.
  assert (Hany : isinstance_any (value_of st c) AMBIGUOUS_OR_EMPTY = true).
  { revert Hamb. unfold AMBIGUOUS_OR_EMPTY, isinstance_any. simpl.
    rewrite !orb_false_r. intros [H|H]%orb_true_iff; rewrite H; [done|].
    by rewrite orb_true_r. }
  rewrite Hany, orb_true_r. simpl. unfold bind at 1, ret.
  unfold bind at 1, gets. rewrite Hmod, Hcomp. simpl.
  unfold bind at 1. unfold _lookup_from_mro. unfold bind at 1, gets.
  rewrite Hamb. unfold new_unsolvable, to_variable.
  unfold bind at 1, NewVariable. unfold bind at 1, AddBinding, append_binding.
  unfold bind at 1, ret. rewrite bindings_new_variable.
  assert (Hb : bindings st (length (vars st)) = []).
  { unfold bindings. by rewrite lookup_ge_None_2. }
  rewrite Hb. cbn [vars with_vars app].
  rewrite insert_app_r_alt by done. rewrite Nat.sub_diag. cbn [insert list_insert].
  change (with_vars ?x (with_vars ?y st)) with (with_vars x st).
  fold st1. unfold bind at 1, gets.
  assert (Hb1 : bindings st1 (length (vars st))
                = [{| data := unsolvable E;
                      origins := [{| where_ := n; source_set := [] |}] |}]).
  { unfold bindings, st1; simpl. rewrite lookup_app_r by done.
    by rewrite Nat.sub_diag. }
  rewrite Hb1. unfold bind, ext, ret. subst called name_var u.
  destruct (constant_to_var E nm n st1) as [nv s2]. simpl.
  by destruct (call_function E n (length (vars st)) [nv] s2) as [r s3].
Qed.

(** X17.  [Attrs.init_name] removes leading underscores and nothing else:
    the attribute's name is some underscores followed by the result, the
    result does not start with an underscore, stripping again changes
    nothing, and a name that does not start with an underscore is returned
    as it is. *)
Theorem init_name_strips_leading_underscores attr_name :
  (∃ k, attr_name = underscores k +:+ init_name attr_name)
  ∧ (∀ rest, init_name attr_name ≠ String underscore rest)
  ∧ init_name (init_name attr_name) = init_name attr_name
  ∧ (∀ a rest, attr_name = String a rest → a ≠ underscore →
               init_name attr_name = attr_name).
Proof.
  unfold init_name. split_and!.
  - induction attr_name as [|a s (k & IH)]; [by exists 0|]. simpl.
    destruct (Ascii.eqb_spec a underscore) as [->|Hne].
    + exists (S k). change (String underscore s
                            = String underscore (underscores k +:+ lstrip_underscores s)).
      by f_equal.
    + by exists 0.
  - induction attr_name as [|a s IH]; [done|]. simpl.
    destruct (Ascii.eqb_spec a underscore) as [->|Hne]; [done|].
    intros rest [= ? _]. done.
  - induction attr_name as [|a s IH]; [done|]. simpl.
    destruct (Ascii.eqb_spec a underscore) as [->|Hne]; [done|].
    simpl. by rewrite (proj2 (Ascii.eqb_neq _ _) Hne).
  - intros a rest -> Hne. simpl. by rewrite (proj2 (Ascii.eqb_neq _ _) Hne).
Qed.

End Further.

(** * Runs of the further properties on the concrete stores *)

Lemma check_writable_exactly_witness :
  _check_writable Demo.env 9 "a" Demo.slotted = Done Demo.slotted true
  ∧ _check_writable Demo.env 9 "b" Demo.slotted
    = Done (with_errorlog (errorlog Demo.slotted ++ [(9, "b")]) Demo.slotted) false.
Proof.
  split.
  - apply (check_writable_exactly Demo.env 9 "a" Demo.slotted).
    right. exists 8. split; [apply list_elem_of_here|]. split; [discriminate|reflexivity].
  - apply (check_writable_exactly Demo.env 9 "b" Demo.slotted).
    intros [H|(b & Hin & Hne & Hg)]; [discriminate|].
    vm_compute in Hin. apply elem_of_cons in Hin as [->|Hin].
    + vm_compute in Hg. discriminate.
    + apply list_elem_of_singleton in Hin as ->. by apply Hne.
Defined.

Lemma get_attribute_computed_not_attempted_witness :
  _get_attribute_computed Demo.env (get_attribute Demo.env 4) 4 0 8 "__x__"
    (Some (3, 0)) "__getattribute__" Demo.hooked
  = Done Demo.hooked (0, None).
Proof.
  apply (get_attribute_computed_not_attempted Demo.env); [reflexivity|].
  right. right. reflexivity.
Defined.

Lemma computable_names_witness :
  _computable "__init__" = false
  ∧ _computable "name" = true
  ∧ _computable "__private" = true.
Proof.
  destruct computable_names as (H1 & H2 & H3). split_and!.
  - exact (H1 "init").
  - apply H2. reflexivity.
  - apply (H3 "__privat" (Ascii.ascii_of_nat 101)). vm_compute. discriminate.
Defined.

Lemma filter_var_absent_or_nonempty_witness :
  _filter_var Demo.env 4 1 0 Demo.shadowed = Done Demo.shadowed None.
Proof.
  apply (filter_var_absent_or_nonempty Demo.env 4 1 0 Demo.shadowed).
  reflexivity.
Defined.

Lemma filter_var_keeps_visible_values_witness :
  _filter_var Demo.env 4 1 0 Cases.mixed
  = Done (with_vars
            (vars Cases.mixed ++
             [(λ b, {| data := bdata Cases.mixed b;
                       origins := [{| where_ := 1; source_set := [b] |}] |})
                <$> Bindings Demo.env Cases.mixed 0 1]) Cases.mixed)
         (Some (length (vars Cases.mixed))).
Proof.
  apply (filter_var_keeps_visible_values Demo.env 4 1 0 Cases.mixed).
  - vm_compute. discriminate.
  - vm_compute. discriminate.
  - intros b Hb. vm_compute in Hb. apply list_elem_of_singleton in Hb as ->.
    reflexivity.
  - vm_compute. lia.
Defined.

Lemma get_member_found_is_visible_witness :
  0 = 0
  ∧ members_of Demo.hooked 9 !! "x" = Some 1
  ∧ Bindings Demo.env Demo.hooked 1 0 ≠ [].
Proof.
  apply (get_member_found_is_visible Demo.env 0 9 "x" None
           Demo.hooked Demo.hooked 0 (Some 1)).
  reflexivity.
Defined.

Lemma get_attribute_found_is_nonempty_witness :
  ∃ st' a,
    _get_attribute Demo.env (get_attribute Demo.env 4) 4 0 9 (Some 8) "__x__"
      (Some (3, 0)) Demo.hooked = Done st' (0, Some a)
    ∧ bindings st' a ≠ [].
Proof.
  eexists _, _. split; [vm_compute; reflexivity|].
  eapply (get_attribute_found_is_nonempty Demo.env (get_attribute Demo.env 4) 4 0 9
            (Some 8) "__x__" (Some (3, 0)) Demo.hooked).
  vm_compute. reflexivity.
Defined.

Lemma set_attribute_first_write_witness :
  ∃ st', set_attribute Demo.env 3 0 9 "x" 1 (Demo.written ∅) = Done st' 0
         ∧ vars st' = vars (Demo.written ∅) ++ [pasted (Demo.written ∅) 1 0]
         ∧ members_of st' 9
           = <[ "x" := length (vars (Demo.written ∅)) ]> (members_of (Demo.written ∅) 9)
         ∧ ∀ x, x ≠ 9 → members_of st' x = members_of (Demo.written ∅) x.
Proof.
  apply (set_attribute_first_write Demo.env 2 (Demo.written ∅) 0 9 "x" 1).
  - reflexivity.
  - reflexivity.
  - discriminate.
  - reflexivity.
  - reflexivity.
  - intros _ base s. reflexivity.
  - reflexivity.
  - vm_compute. lia.
Defined.

Lemma set_attribute_then_get_member_witness :
  ∃ st', set_attribute Demo.env 3 0 9 "x" 1 (Demo.written ∅) = Done st' 0
         ∧ ∀ n' valself,
             reachable Demo.env st' 0 n' = true →
             _get_member Demo.env n' 9 "x" valself st'
             = Done st' (n', Some (length (vars (Demo.written ∅))))
             ∧ var_data st' (length (vars (Demo.written ∅)))
               = var_data (Demo.written ∅) 1.
Proof.
  apply (set_attribute_then_get_member Demo.env 2 (Demo.written ∅) 0 9 "x" 1).
  - reflexivity.
  - reflexivity.
  - discriminate.
  - reflexivity.
  - reflexivity.
  - intros _ base s. reflexivity.
  - reflexivity.
  - vm_compute. lia.
  - vm_compute. discriminate.
Defined.

Lemma grows_total {A} (c : M A) (d : A) :
  grows c → ∀ st, store_grows st (Demo.total c d st).2.
Proof.
  intros Hc st. unfold Demo.total. destruct (c st) as [st' a| |] eqn:H; simpl.
  - by eapply Hc.
  - apply store_grows_refl.
  - apply store_grows_refl.
Qed.

Lemma grows_to_variable o n : grows (to_variable o n).
Proof.
  unfold to_variable. apply grows_bind; [apply grows_NewVariable|]. intros v.
  apply grows_bind; [apply grows_AddBinding|]. intros _. apply grows_ret.
Qed.

Lemma demo_collaborators_grow : write_collaborators_grow Demo.env.
Proof.
  split_and!.
  - intros o nm s st.
    exact (grows_total (to_variable Demo.ANY 0) 0 (grows_to_variable _ _) st).
  - intros b nm o st. apply store_grows_refl.
  - intros o n v st. split; [|done].
    intros x k w. unfold members_of. cbn [set_class Demo.env snd].
    rewrite value_of_insert.
    by case_bool_decide as Hx; [destruct Hx as [-> _]|].
  - intros o n v st.
    refine (grows_total (let* _ := to_variable Demo.ANY n in ret tt) tt _ st).
    apply grows_bind; [apply grows_to_variable|]. intros _. apply grows_ret.
  - intros o nm st. cbn [get_instance_type_parameter Demo.env].
    destruct (members_of st o !! nm).
    + apply store_grows_refl.
    + exact (grows_total NewVariable 0 grows_NewVariable st).
  - intros ns st. apply store_grows_refl.
Qed.

Lemma set_attribute_loses_nothing_witness :
  ∃ st', set_attribute Demo.env 3 0 9 "y" 1 (Demo.written {[ "y" := 0 ]}) = Done st' 0
         ∧ store_grows (Demo.written {[ "y" := 0 ]}) st'.
Proof.
  eexists. split; [vm_compute; reflexivity|].
  eapply (set_attribute_loses_nothing Demo.env demo_collaborators_grow 3 0 9 "y" 1).
  vm_compute. reflexivity.
Defined.

Lemma super_skip_up_to_current_witness :
  ∃ q, last (super_skip Demo.shadowed "B" [8; 9]) = Some q
       ∧ full_name (value_of Demo.shadowed q) = "B"
       ∧ ∀ r, r ∈ removelast (super_skip Demo.shadowed "B" [8; 9]) →
              full_name (value_of Demo.shadowed r) ≠ "B".
Proof.
  apply (proj1 (proj2 (super_skip_up_to_current Demo.shadowed "B" [8; 9])) 9).
  - apply list_elem_of_further, list_elem_of_here.
  - reflexivity.
Defined.

Lemma super_from_last_class_finds_nothing_witness :
  ∃ st', _get_attribute_from_super_instance Demo.env (get_attribute Demo.env 4) 4
           0 10 "f" None Cases.with_super = Done st' (0, None)
         ∧ objs st' = objs Cases.with_super.
Proof.
  apply (super_from_last_class_finds_nothing Demo.env (get_attribute Demo.env 4) 4
           0 10 "f" None Cases.with_super 9 [] 8).
  - reflexivity.
  - discriminate.
  - reflexivity.
  - reflexivity.
  - vm_compute. apply not_elem_of_nil.
  - reflexivity.
  - intros p Hp. by apply elem_of_nil in Hp.
Defined.

Lemma property_on_class_is_returned_uncalled_witness :
  Demo.outcome
    (_lookup_from_mro_and_handle_descriptors Demo.env (get_attribute Demo.env 4) 4
       0 8 "p" (Some (1, 0)) [] Cases.with_property)
  = Some (0, Some 4).
Proof.
  eassert (H : _lookup_from_mro_and_handle_descriptors Demo.env
                 (get_attribute Demo.env 4) 4 0 8 "p" (Some (1, 0)) []
                 Cases.with_property = _).
  { eapply (property_on_class_is_returned_uncalled Demo.env (get_attribute Demo.env 4)
              4 0 8 "p" (1, 0) [] Cases.with_property).
    - vm_compute. reflexivity.
    - vm_compute. discriminate.
    - reflexivity.
    - vm_compute. eexists. reflexivity.
    - reflexivity.
    - intros b Hb. vm_compute in Hb. apply list_elem_of_singleton in Hb as ->.
      reflexivity. }
  rewrite H. vm_compute. reflexivity.
Defined.

Lemma set_attribute_ignored_targets_witness :
  ∃ st', set_attribute Demo.env 2 0 Demo.ANY "x" 1 (Demo.written ∅) = Done st' 0
         ∧ vars st' = vars (Demo.written ∅)
         ∧ ∀ x, members_of st' x = members_of (Demo.written ∅) x.
Proof.
  apply (set_attribute_ignored_targets Demo.env 1 (Demo.written ∅) 0 Demo.ANY "x" 1).
  apply list_elem_of_further, list_elem_of_further, list_elem_of_here.
Defined.

Lemma module_attribute_falls_back_to_submodule_witness :
  Demo.outcome
    (_get_module_attribute Demo.env (get_attribute Demo.env 4) 4 0 8 "sub" None
       Cases.with_module)
  = Some (0, None).
Proof.
  eassert (H : _get_module_attribute Demo.env (get_attribute Demo.env 4) 4 0 8
                 "sub" None Cases.with_module = _).
  { eapply (module_attribute_falls_back_to_submodule Demo.env
              (get_attribute Demo.env 4) 4 0 8 "sub" None Cases.with_module).
    - reflexivity.
    - vm_compute. reflexivity.
    - vm_compute. reflexivity. }
  rewrite H. reflexivity.
Defined.

Lemma computed_on_unknown_class_calls_hook_witness :
  Demo.outcome
    (_get_attribute_computed Demo.env (get_attribute Demo.env 4) 4 0 Demo.ANY "x"
       (Some (3, 0)) "__getattr__" Demo.hooked)
  = Some (0, Some 6).
Proof.
  eassert (H : _get_attribute_computed Demo.env (get_attribute Demo.env 4) 4 0
                 Demo.ANY "x" (Some (3, 0)) "__getattr__" Demo.hooked = _).
  { apply (computed_on_unknown_class_calls_hook Demo.env (get_attribute Demo.env 4)
             4 0 Demo.ANY "x" (3, 0) "__getattr__" Demo.hooked); reflexivity. }
  rewrite H. reflexivity.
Defined.

Lemma init_name_strips_leading_underscores_witness :
  init_name "x_y" = "x_y".
Proof.
  apply (proj2 (proj2 (proj2 (init_name_strips_leading_underscores "x_y")))
           (Ascii.ascii_of_nat 120) "_y").
  - reflexivity.
  - vm_compute. discriminate.
Defined.
